(** * Law-qiSuZhuang: the complaint extraction and template filling of [app.py]
    A shallow embedding of the two core functions of [src/app.py],
    [extract_lawsuit_data] and [generate_docx], and of what they rest on:
    Python's [str] with its [in], [replace], [strip], [join], [lower] and
    [endswith], the python-docx object model (document, paragraphs, runs,
    tables, rows, cells) and the [try]/[except] frames that turn every
    exception into a message on the page and a [None]; then of the script of
    the page that calls them. *)

From Stdlib Require Import String Ascii.
From Stdlib Require Import List NArith Arith Bool Lia.
Import ListNotations.

Set Implicit Arguments.

(** * The program *)

(** ** Python strings *)

(** A Python [str] is a sequence of Unicode code points. *)
Definition char := N.
Definition str := list char.

(** String literals of the source are written as Rocq strings, which hold
    their UTF-8 bytes; [lit] decodes them to code points. [utf8_go bs need acc]
    reads a sequence that still [need]s continuation bytes and has gathered
    [acc] so far. *)
Fixpoint utf8_go (bs : list N) (need : nat) (acc : N) : str :=
  match bs with
  | [] => []
  | b :: bs' =>
      match need with
      | O =>
          if (b <? 128)%N then b :: utf8_go bs' 0 0%N
          else if (b <? 224)%N then utf8_go bs' 1 (b - 192)%N
          else if (b <? 240)%N then utf8_go bs' 2 (b - 224)%N
          else utf8_go bs' 3 (b - 240)%N
      | S n =>
          let acc' := (acc * 64 + (b - 128))%N in
          match n with
          | O => acc' :: utf8_go bs' 0 0%N
          | S _ => utf8_go bs' n acc'
          end
      end
  end.

Definition lit (s : string) : str :=
  utf8_go (map N_of_ascii (list_ascii_of_string s)) 0 0%N.

Arguments lit s%_string_scope.

(** [s.startswith(p)] *)
Fixpoint starts_with (p s : str) : bool :=
  match p, s with
  | [], _ => true
  | _ :: _, [] => false
  | a :: p', b :: s' => (a =? b)%N && starts_with p' s'
  end.

(** [key in s] *)
Fixpoint contains (key s : str) : bool :=
  starts_with key s ||
  match s with
  | [] => false
  | _ :: s' => contains key s'
  end.

(** [s.replace(old, new)]: the occurrences of [old] are taken from the left,
    without overlap. With an empty [old] Python puts [new] before every
    character and at the end. *)
Fixpoint replace_from (fuel : nat) (old new s : str) : str :=
  match fuel with
  | O => s
  | S fuel' =>
      if starts_with old s
      then new ++ replace_from fuel' old new (skipn (length old) s)
      else match s with
           | [] => []
           | c :: s' => c :: replace_from fuel' old new s'
           end
  end.

Definition replace (old new s : str) : str :=
  match old with
  | [] => new ++ flat_map (fun c => c :: new) s
  | _ :: _ => replace_from (length s) old new s
  end.

(** [c.isspace()]: the code points Python counts as whitespace. *)
Definition is_space (c : char) : bool :=
  ((9 <=? c) && (c <=? 13) || (28 <=? c) && (c <=? 32) ||
   (c =? 133) || (c =? 160) || (c =? 5760) ||
   (8192 <=? c) && (c <=? 8202) || (c =? 8232) || (c =? 8233) ||
   (c =? 8239) || (c =? 8287) || (c =? 12288))%N.

Fixpoint lstrip (s : str) : str :=
  match s with
  | [] => []
  | c :: s' => if is_space c then lstrip s' else s
  end.

Definition rstrip (s : str) : str := rev (lstrip (rev s)).

(** [s.strip()] *)
Definition strip (s : str) : str := rstrip (lstrip s).

(** [sep.join(parts)] *)
Fixpoint join (sep : str) (parts : list str) : str :=
  match parts with
  | [] => []
  | p :: ps =>
      match ps with
      | [] => p
      | _ :: _ => p ++ sep ++ join sep ps
      end
  end.

(** [s.lower()] on the ASCII letters; the code points above them are kept,
    their case mapping never yields one of the characters of [".docx"]. *)
Definition lower_char (c : char) : char :=
  if ((65 <=? c) && (c <=? 90))%N then (c + 32)%N else c.

Definition lower (s : str) : str := map lower_char s.

(** [s.endswith(suffix)] *)
Definition endswith (s suffix : str) : bool :=
  starts_with (rev suffix) (rev s).

(** [x or ""] for an [Optional[str]]: [None] and the empty string both give
    the empty string. *)
Definition or_empty (x : option str) : str :=
  match x with
  | Some s => s
  | None => []
  end.

Fixpoint str_eqb (a b : str) : bool :=
  match a, b with
  | [], [] => true
  | x :: a', y :: b' => (x =? y)%N && str_eqb a' b'
  | _, _ => false
  end.

Definition NL : str := [10%N].
Definition LB : char := 123%N.  (* the character opening a placeholder *)
Definition RB : char := 125%N.  (* the character closing a placeholder *)

(** ** 1. The data structures (the Pydantic models) *)

Record PartyInfo := {
  name : option str;
  gender : option str;
  ethnicity : option str;
  dob : option str;
  address : option str;
  id_card : option str;
  contact : option str
}.

Record Lawsuit := {
  plaintiff : PartyInfo;
  defendant : PartyInfo;
  claims : str;
  facts_and_reasons : str;
  court_name : option str;
  date : option str
}.

(** ** The python-docx object model
    A run is a stretch of text under one formatting; a paragraph is its
    sequence of runs, and its text is all in its runs; the body of a
    document and the content of a table cell are sequences of paragraphs and
    tables, so that a cell may hold tables of its own; a row lists each of
    its cells once. Reading the text of a run gives back what was written to
    it, and writing it does not fail. *)

Record Run := { style : nat; text : str }.

Record Paragraph := { runs : list Run }.

#[warnings="-register-all"]
Inductive Block :=
| BPara (p : Paragraph)
| BTable (rows : list (list (list Block))).

Definition Cell := list Block.
Definition Row := list Cell.
Definition Table := list Row.

Record Document := { body : list Block }.

(** [para.text]: the texts of the runs, end to end. *)
Definition para_text (p : Paragraph) : str := concat (map text (runs p)).

Definition block_paragraphs (b : Block) : list Paragraph :=
  match b with
  | BPara p => [p]
  | BTable _ => []
  end.

Definition block_tables (b : Block) : list Table :=
  match b with
  | BPara _ => []
  | BTable t => [t]
  end.

(** [doc.paragraphs] and [doc.tables]: the paragraphs and the tables that are
    direct children of the body, each in document order. *)
Definition paragraphs (d : Document) : list Paragraph :=
  flat_map block_paragraphs (body d).

Definition tables (d : Document) : list Table :=
  flat_map block_tables (body d).

(** [cell.paragraphs] and [cell.text]: the paragraphs that are direct children
    of the cell, and their texts joined by a newline. *)
Definition cell_paragraphs (c : Cell) : list Paragraph :=
  flat_map block_paragraphs c.

Definition cell_text (c : Cell) : str :=
  join NL (map para_text (cell_paragraphs c)).

(** ** Exceptions, the page and the outside world *)

(** What a [try] body comes to: a value, or a raised exception. [ValueError]
    is the one built at line 47 of [app.py]; what the libraries raise is kept
    apart as [LibraryError], whatever its Python class. Both derive from
    [Exception]. *)
Inductive exn :=
| ValueError (msg : str)
| LibraryError (msg : str).

(** [str(e)], as the f-strings of the handlers print it. *)
Definition exn_str (e : exn) : str :=
  match e with
  | ValueError msg => msg
  | LibraryError msg => msg
  end.

Inductive result (A : Type) :=
| Ok (a : A)
| Raised (e : exn).

Arguments Ok {A} a.
Arguments Raised {A} e.

Definition bind {A B : Type} (r : result A) (k : A -> result B) : result B :=
  match r with
  | Ok a => k a
  | Raised e => Raised e
  end.

Notation "x <- r ;; k" := (bind r (fun x => k))
  (at level 61, r at next level, right associativity).

(** What the function leaves on the Streamlit page. *)
Inductive st_call :=
| st_error (msg : str).

(** The bytes of a saved document are stood for by the document they hold. *)
Inductive bytes :=
| docx_bytes (d : Document).

(** A call into a library either returns a value or fails with the message
    of the exception it raises. *)
Inductive library_result (A : Type) :=
| Returns (a : A)
| Fails (msg : str).

Arguments Returns {A} a.
Arguments Fails {A} msg.

Definition call {A : Type} (r : library_result A) : result A :=
  match r with
  | Returns a => Ok a
  | Fails msg => Raised (LibraryError msg)
  end.

(** The libraries and services the two functions call. *)
Record World := {
  (** [docx.Document(path)] *)
  docx_Document : str -> library_result Document;
  (** [parser.get_format_instructions()] *)
  get_format_instructions : str;
  (** [ChatTongyi(dashscope_api_key, model, temperature=0)] called on a
      prompt: the text of the answer *)
  model_invoke : str -> str -> str -> library_result str;
  (** [PydanticOutputParser(pydantic_object=Lawsuit).parse] *)
  parser_parse : str -> library_result Lawsuit
}.

(** ** 2. Extraction
    One run of the body of [extract_lawsuit_data]; the cache of
    [st.cache_data] keeps what a run returned for its arguments. *)

(** Lines 49 to 60: the text handed to the model. *)
Definition append_nonempty (parts : list str) (t : str) : list str :=
  match t with
  | [] => parts
  | _ :: _ => parts ++ [t]
  end.

Definition extract_parts (docx_doc : Document) : list str :=
  let parts := [] in
  let parts :=
    fold_left (fun parts para => append_nonempty parts (strip (para_text para)))
              (paragraphs docx_doc) parts in
  fold_left (fun parts table =>
    fold_left (fun parts row =>
      fold_left (fun parts cell => append_nonempty parts (strip (cell_text cell)))
                row parts)
      table parts)
    (tables docx_doc) parts.

Definition extract_content (docx_doc : Document) : str :=
  join NL (extract_parts docx_doc).

Definition indent : str := lit "        ".

(** The prompt template of lines 66 to 75 with its two variables filled. *)
Definition format_prompt (document_text format_instructions : str) : str :=
  NL ++ indent ++ lit "你是一个专业的法律文书助手。请从以下起诉状文本中提取所有关键信息。" ++
  NL ++ indent ++ lit "请严格按照以下JSON格式指令输出结果，如果某些信息在文本中不存在，请将其值留空(null)。" ++
  NL ++ NL ++ indent ++ lit "文本内容:" ++
  NL ++ indent ++ document_text ++
  NL ++ NL ++ indent ++ lit "格式指令:" ++
  NL ++ indent ++ format_instructions ++
  NL ++ indent.

Definition unsupported_msg : str :=
  lit "仅支持 .docx 文件，请将 .doc 文件另存为 .docx 后再上传。".

Definition model_name : str := lit "qwen3-235b-a22b-thinking-2507".

(** The body of the [try] of [extract_lawsuit_data]. *)
Definition extract_lawsuit_data_try (w : World) (file_path api_key : str)
  : result Lawsuit :=
  if negb (endswith (lower file_path) (lit ".docx"))
  then Raised (ValueError unsupported_msg)
  else
    docx_doc <- call (docx_Document w file_path) ;;
    let content := extract_content docx_doc in
    let prompt := format_prompt content (get_format_instructions w) in
    answer <- call (model_invoke w api_key model_name prompt) ;;
    call (parser_parse w answer).

(** [extract_lawsuit_data]: the value returned and what was put on the page. *)
Definition extract_lawsuit_data (w : World) (file_path api_key : str)
  : option Lawsuit * list st_call :=
  match extract_lawsuit_data_try w file_path api_key with
  | Ok r => (Some r, [])
  | Raised e => (None, [st_error (lit "信息提取失败: " ++ exn_str e)])
  end.

(** ** 3. Generation *)

(** Lines 106 to 125: a dict keeps the order in which its keys were written. *)
Definition replacements (data : Lawsuit) : list (str * str) :=
  [ (lit "{{plaintiff_name}}", or_empty (name (plaintiff data)));
    (lit "{{plaintiff_gender}}", or_empty (gender (plaintiff data)));
    (lit "{{plaintiff_ethnicity}}", or_empty (ethnicity (plaintiff data)));
    (lit "{{plaintiff_dob}}", or_empty (dob (plaintiff data)));
    (lit "{{plaintiff_address}}", or_empty (address (plaintiff data)));
    (lit "{{plaintiff_id_card}}", or_empty (id_card (plaintiff data)));
    (lit "{{plaintiff_contact}}", or_empty (contact (plaintiff data)));
    (lit "{{defendant_name}}", or_empty (name (defendant data)));
    (lit "{{defendant_gender}}", or_empty (gender (defendant data)));
    (lit "{{defendant_ethnicity}}", or_empty (ethnicity (defendant data)));
    (lit "{{defendant_dob}}", or_empty (dob (defendant data)));
    (lit "{{defendant_address}}", or_empty (address (defendant data)));
    (lit "{{defendant_id_card}}", or_empty (id_card (defendant data)));
    (lit "{{defendant_contact}}", or_empty (contact (defendant data)));
    (lit "{{claims}}", claims data);
    (lit "{{facts_and_reasons}}", facts_and_reasons data);
    (lit "{{court_name}}", or_empty (court_name data));
    (lit "{{date}}", or_empty (date data)) ].

(** [inline[i].text = text]: the run at index [i] gets a new text and keeps
    its formatting. *)
Definition with_text (r : Run) (t : str) : Run :=
  {| style := style r; text := t |}.

Fixpoint set_nth {A : Type} (i : nat) (x : A) (l : list A) : list A :=
  match l, i with
  | [], _ => []
  | _ :: l', O => x :: l'
  | a :: l', S i' => a :: set_nth i' x l'
  end.

(** Lines 134 to 137: the loop over the indices of the runs. *)
Definition replace_in_runs (key value : str) (inline : list Run) : list Run :=
  fold_left
    (fun inline i =>
       match nth_error inline i with
       | Some r =>
           if contains key (text r)
           then set_nth i (with_text r (replace key value (text r))) inline
           else inline
       | None => inline
       end)
    (seq 0 (length inline)) inline.

(** Lines 129 to 137: the loop over the items of [replacements] for one
    paragraph. *)
Definition replace_in_paragraph (reps : list (str * str)) (para : Paragraph)
  : Paragraph :=
  fold_left
    (fun para kv =>
       let '(key, value) := kv in
       if contains key (para_text para)
       then {| runs := replace_in_runs key value (runs para) |}
       else para)
    reps para.

Definition on_paragraph (f : Paragraph -> Paragraph) (b : Block) : Block :=
  match b with
  | BPara p => BPara (f p)
  | BTable t => BTable t
  end.

Definition on_table (f : Table -> Table) (b : Block) : Block :=
  match b with
  | BPara p => BPara p
  | BTable t => BTable (f t)
  end.

(** Lines 128 to 137: the paragraphs of the body. *)
Definition fill_paragraphs (reps : list (str * str)) (doc : Document) : Document :=
  {| body := map (on_paragraph (replace_in_paragraph reps)) (body doc) |}.

(** Lines 143 to 150: the paragraphs of one cell. *)
Definition fill_cell (reps : list (str * str)) (cell : Cell) : Cell :=
  map (on_paragraph (replace_in_paragraph reps)) cell.

(** Lines 140 to 150: the cells of the rows of the tables of the body. *)
Definition fill_tables (reps : list (str * str)) (doc : Document) : Document :=
  {| body := map (on_table (map (map (fill_cell reps)))) (body doc) |}.

Definition fill (data : Lawsuit) (doc : Document) : Document :=
  let reps := replacements data in
  fill_tables reps (fill_paragraphs reps doc).

(** The body of the [try] of [generate_docx]. *)
Definition generate_docx_try (w : World) (data : Lawsuit) (template_path : str)
  : result bytes :=
  doc <- call (docx_Document w template_path) ;;
  Ok (docx_bytes (fill data doc)).

(** [generate_docx]: the value returned and what was put on the page. *)
Definition generate_docx (w : World) (data : Lawsuit) (template_path : str)
  : option bytes * list st_call :=
  match generate_docx_try w data template_path with
  | Ok b => (Some b, [])
  | Raised e => (None, [st_error (lit "文档生成失败: " ++ exn_str e)])
  end.

(** * Notions for the statements *)

(** ** The placeholders and the lookup in [replacements] *)

(** The 18 placeholders, in the order of the dict. *)
Definition tokens : list str :=
  Eval vm_compute in
    map fst (replacements
      {| plaintiff := Build_PartyInfo None None None None None None None;
         defendant := Build_PartyInfo None None None None None None None;
         claims := []; facts_and_reasons := [];
         court_name := None; date := None |}).

(** [reps[k]] for the list of items [reps]. *)
Fixpoint lookup (reps : list (str * str)) (k : str) : option str :=
  match reps with
  | [] => None
  | (key, value) :: reps' => if str_eqb key k then Some value else lookup reps' k
  end.

Fixpoint distinct (ks : list str) : bool :=
  match ks with
  | [] => true
  | k :: ks' => negb (existsb (str_eqb k) ks') && distinct ks'
  end.

(** No placeholder is the beginning of another one. *)
Definition prefix_free (ks : list str) : bool :=
  forallb (fun a => forallb (fun b => Bool.eqb (starts_with a b) (starts_with b a)) ks) ks.


(** ** The steps of the loops *)

(** What the loop of lines 134 to 137 does to one run. *)
Definition run_step (key value : str) (r : Run) : Run :=
  if contains key (text r)
  then with_text r (replace key value (text r))
  else r.

(** One item of [replacements] on one paragraph. *)
Definition para_step (para : Paragraph) (kv : str * str) : Paragraph :=
  let '(key, value) := kv in
  if contains key (para_text para)
  then {| runs := replace_in_runs key value (runs para) |}
  else para.

(** All the items of [replacements], one after the other, on one text. *)
Definition replace_all (reps : list (str * str)) (t : str) : str :=
  fold_left (fun t kv => replace (fst kv) (snd kv) t) reps t.

Definition keys_nonempty (reps : list (str * str)) : Prop :=
  Forall (fun kv => fst kv <> []) reps.

(** ** The extracted text in the words of the specification *)

Definition nonempty (t : str) : bool :=
  match t with
  | [] => false
  | _ :: _ => true
  end.

(** The text extraction in the words of the specification: the trimmed
    non-empty paragraph texts in document order, then the trimmed non-empty
    cell texts in table, row, cell order, joined by a newline. *)
Definition extract_text_spec (d : Document) : str :=
  join NL
    (filter nonempty (map (fun p => strip (para_text p)) (paragraphs d)) ++
     filter nonempty
       (map (fun c => strip (cell_text c)) (concat (concat (tables d))))).

(** The document with its paragraphs moved in front of its tables. *)
Definition paragraphs_first (d : Document) : Document :=
  {| body := map BPara (paragraphs d) ++ map BTable (tables d) |}.

(** ** The paragraphs of a document *)



(** The paragraphs the two loops of [generate_docx] reach. *)
Definition visited_paragraphs (d : Document) : list Paragraph :=
  paragraphs d ++ flat_map cell_paragraphs (concat (concat (tables d))).


Definition no_token (para : Paragraph) : Prop :=
  Forall (fun k => contains k (para_text para) = false) tokens.

(** ** Scanning for a placeholder *)

(** Every opening brace of [w] is followed, inside [w], by another character:
    no key can begin in [w] and run on into what follows. *)
Fixpoint head_safe (w : str) : bool :=
  match w with
  | [] => true
  | c :: w' =>
      (negb (c =? LB)%N ||
       match w' with
       | [] => false
       | d :: _ => negb (d =? LB)%N
       end) && head_safe w'
  end.

(** [u] does not begin with a closing brace and has no two of them in a row:
    no key can end in [u] having begun before it. *)
Definition tail_safe (u : str) : bool :=
  match u with
  | [] => true
  | c :: _ => negb (c =? RB)%N
  end && negb (contains [RB; RB] u).

Definition token_ok (k : str) : bool :=
  starts_with [LB; LB] k && endswith k [RB; RB] &&
  forallb (fun i => tail_safe (firstn i k) && head_safe (skipn i k))
          (seq 1 (length k - 1)).

Record key_shape (k : str) : Prop := {
  key_opens : exists k', k = LB :: LB :: k';
  key_closes : exists k', k = k' ++ [RB; RB];
  key_split_safe :
    forall u w, k = u ++ w -> u <> [] -> w <> [] ->
                tail_safe u = true /\ head_safe w = true
}.


(** ** Templates made of ordinary text and whole placeholders *)

(** A piece of the text of a run: ordinary text, or a placeholder. *)
Inductive segment :=
| Plain (t : str)
| Placeholder (k : str).

Definition segment_text (s : segment) : str :=
  match s with
  | Plain t => t
  | Placeholder k => k
  end.

Definition segments_text (segs : list segment) : str :=
  concat (map segment_text segs).

(** Ordinary text has no opening brace; a placeholder is one of the 18. *)
Definition segment_ok (s : segment) : Prop :=
  match s with
  | Plain t => ~ In LB t
  | Placeholder k => In k tokens
  end.

(** The text is made of ordinary text and whole placeholders. *)
Definition made_of_segments (t : str) : Prop :=
  exists segs, Forall segment_ok segs /\ t = segments_text segs.

(** What a piece becomes when every placeholder is replaced by its value at
    once. *)
Definition resolve (reps : list (str * str)) (s : segment) : str :=
  match s with
  | Plain t => t
  | Placeholder k =>
      match lookup reps k with
      | Some v => v
      | None => k
      end
  end.

(** One item of [replacements] on a piece. *)
Definition segment_step (key value : str) (s : segment) : segment :=
  match s with
  | Plain t => Plain t
  | Placeholder k => if str_eqb key k then Plain value else Placeholder k
  end.

(** Every run the loops reach is made of ordinary text and placeholders. *)
Definition template_ok (doc : Document) : Prop :=
  forall p r, In p (visited_paragraphs doc) -> In r (runs p) ->
              made_of_segments (text r).


(** No value of the record has an opening brace. *)
Definition values_brace_free (data : Lawsuit) : Prop :=
  forall kv, In kv (replacements data) -> ~ In LB (snd kv).

Definition brace_free_values (data : Lawsuit) : bool :=
  forallb (fun kv => negb (existsb (N.eqb LB) (snd kv))) (replacements data).



(** ** Documents, records and worlds for the examples *)

Definition plain_paragraph (t : str) : Paragraph :=
  {| runs := [ {| style := 0; text := t |} ] |}.

(** A world for the examples: every path opens as the given document, and the
    model answers with a text the parser turns down. *)
Definition world_with (doc : Document) : World :=
  {| docx_Document := fun _ => Returns doc;
     get_format_instructions := lit "{}";
     model_invoke := fun _ _ _ => Returns (lit "{}");
     parser_parse := fun _ => Fails (lit "claims: Field required") |}.

(** A world in which no file opens as a document. *)
Definition world_without_docx : World :=
  {| docx_Document := fun _ => Fails (lit "File is not a zip file");
     get_format_instructions := lit "{}";
     model_invoke := fun _ _ _ => Returns (lit "{}");
     parser_parse := fun _ => Fails (lit "claims: Field required") |}.

Definition nobody : PartyInfo :=
  {| name := None; gender := None; ethnicity := None; dob := None;
     address := None; id_card := None; contact := None |}.

Definition empty_lawsuit : Lawsuit :=
  {| plaintiff := nobody; defendant := nobody;
     claims := []; facts_and_reasons := [];
     court_name := None; date := None |}.


Definition party (n g e b a i c : string) : PartyInfo :=
  {| name := Some (lit n); gender := Some (lit g); ethnicity := Some (lit e);
     dob := Some (lit b); address := Some (lit a); id_card := Some (lit i);
     contact := Some (lit c) |}.

Definition letter : Document :=
  {| body := [BPara (plain_paragraph (lit "Dear {{date}}"));
              BPara (plain_paragraph (lit "Sincerely, {x}"))] |}.

Definition nested_template : Document :=
  {| body := [ BTable [[ [ BTable [[ [BPara (plain_paragraph (lit "{{claims}}"))] ]] ] ]] ] |}.





(** One paragraph of one run for each of the 18 placeholders. *)
Definition full_template : Document :=
  {| body := map (fun k => BPara (plain_paragraph k)) tokens |}.

(** A record with 18 distinct non-empty values, the plaintiff being named
    like the claims placeholder. *)
Definition lawsuit_with_token_name : Lawsuit :=
  {| plaintiff := party "{{claims}}" "female" "Han" "1980-01-02" "1 Main Road"
                        "110101198001020011" "13800000001";
     defendant := party "Wang" "male" "Hui" "1975-03-04" "2 High Street"
                        "110101197503040022" "13800000002";
     claims := lit "repay the loan";
     facts_and_reasons := lit "the loan fell due";
     court_name := Some (lit "People's Court");
     date := Some (lit "2024-05-06") |}.

(** The same record with a plain plaintiff name. *)
Definition lawsuit_plain : Lawsuit :=
  {| plaintiff := party "Li" "female" "Han" "1980-01-02" "1 Main Road"
                        "110101198001020011" "13800000001";
     defendant := party "Wang" "male" "Hui" "1975-03-04" "2 High Street"
                        "110101197503040022" "13800000002";
     claims := lit "repay the loan";
     facts_and_reasons := lit "the loan fell due";
     court_name := Some (lit "People's Court");
     date := Some (lit "2024-05-06") |}.



(** * 4. The page
    The script that follows the two functions in [app.py], as one run of
    it: Streamlit runs the script again from the top at every interaction.
    Of what the page shows, the messages, the form and the download button
    are kept. *)

(** The bytes of a file. *)
Definition raw := list N.

(** The files of the working directory, by name. *)
Definition files := str -> option raw.

(** [open(path, "wb").write(content)] *)
Definition write_file (fs : files) (path : str) (content : raw) : files :=
  fun p => if str_eqb p path then Some content else fs p.

(** [os.remove(path)] *)
Definition remove_file (fs : files) (path : str) : files :=
  fun p => if str_eqb p path then None else fs p.

(** [os.path.exists(path)] *)
Definition path_exists (fs : files) (path : str) : bool :=
  match fs path with
  | Some _ => true
  | None => false
  end.

(** The libraries and services, with python-docx reading the bytes of a
    file. *)
Record Host := {
  parse_docx : raw -> library_result Document;
  host_format_instructions : str;
  host_model : str -> str -> str -> library_result str;
  host_parser : str -> library_result Lawsuit
}.

(** The world the two functions see on a host with the given files:
    [docx.Document(path)] reads the file of that name, and fails when there
    is none. *)
Definition world_of (h : Host) (fs : files) : World :=
  {| docx_Document := fun path =>
       match fs path with
       | Some content => parse_docx h content
       | None => Fails (lit "Package not found at '" ++ path ++ lit "'")
       end;
     get_format_instructions := host_format_instructions h;
     model_invoke := host_model h;
     parser_parse := host_parser h |}.

(** [@st.cache_data]: what a run of the function returned and put on the
    page is kept under its two arguments; a call with arguments already met
    gives it back without running the function. *)
Definition cache := list (str * str * (option Lawsuit * list st_call)).

Fixpoint cache_find (c : cache) (file_path api_key : str)
  : option (option Lawsuit * list st_call) :=
  match c with
  | [] => None
  | (p, k, r) :: c' =>
      if str_eqb p file_path && str_eqb k api_key then Some r
      else cache_find c' file_path api_key
  end.

(** [extract_lawsuit_data] as the page calls it, under its decorator. *)
Definition extract_lawsuit_data_cached
           (w : World) (c : cache) (file_path api_key : str)
  : (option Lawsuit * list st_call) * cache :=
  match cache_find c file_path api_key with
  | Some r => (r, c)
  | None =>
      let r := extract_lawsuit_data w file_path api_key in
      (r, (file_path, api_key, r) :: c)
  end.

(** What the user did before this run of the script: the key of the
    environment and the key typed, the file uploaded, whether the extraction
    button was pressed, and, when the form was submitted, the record that
    lines 240 to 255 build from its fields. *)
Record Inputs := {
  env_api_key : option str;
  typed_api_key : str;
  uploaded_file : option raw;
  start_clicked : bool;
  submitted : option Lawsuit
}.

(** What outlives a run: [st.session_state.extracted_data], the cache and the
    files. *)
Record PageState := {
  extracted_data : option Lawsuit;
  cached : cache;
  disk : files
}.

Inductive element :=
| show_error (msg : str)
| show_success (msg : str)
| show_form (data : Lawsuit)
| show_download (data : bytes) (file_name mime : str).

Definition of_st_call (c : st_call) : element :=
  match c with
  | st_error msg => show_error msg
  end.

Definition page_temp_path : str := lit "temp_uploaded_file.docx".
Definition page_template_path : str := lit "template.docx".

(** Lines 169 to 171: the key of the environment, or else the key typed. *)
Definition page_api_key (inp : Inputs) : str :=
  match env_api_key inp with
  | Some k => if nonempty k then k else typed_api_key inp
  | None => typed_api_key inp
  end.

(** Lines 184 to 195: the upload is written to the temporary file and, when
    the button was pressed, the extraction is run and its result stored. *)
Definition page_extract (h : Host) (inp : Inputs) (st : PageState)
  : PageState * list element :=
  match uploaded_file inp with
  | Some content =>
      let api_key := page_api_key inp in
      if nonempty api_key then
        let disk1 := write_file (disk st) page_temp_path content in
        if start_clicked inp then
          let '(r, c) :=
            extract_lawsuit_data_cached (world_of h disk1) (cached st)
                                        page_temp_path api_key in
          ({| extracted_data := fst r; cached := c; disk := disk1 |},
           map of_st_call (snd r) ++
           [match fst r with
            | Some _ => show_success (lit "信息提取成功！请在下方表单中审核和修改。")
            | None => show_error (lit "无法从文档中提取信息，请检查文件内容或API Key。")
            end])
        else
          ({| extracted_data := extracted_data st; cached := cached st;
              disk := disk1 |}, [])
      else (st, [])
  | None => (st, [])
  end.

Definition download_name : str := lit "高标准格式的起诉状_完成.docx".
Definition download_mime : str :=
  lit "application/vnd.openxmlformats-officedocument.wordprocessingml.document".

(** Lines 198 to 271: the form, and the generation when it was submitted. *)
Definition page_generate (h : Host) (inp : Inputs) (st : PageState)
  : list element :=
  match extracted_data st with
  | Some data =>
      show_form data ::
      match submitted inp with
      | Some final_data =>
          if negb (path_exists (disk st) page_template_path)
          then [show_error (lit "错误：未找到模板文件 `template.docx`。请确保它与 `app.py` 在同一目录下。")]
          else
            let r := generate_docx (world_of h (disk st)) final_data page_template_path in
            map of_st_call (snd r) ++
            match fst r with
            | Some generated_doc_bytes =>
                [show_success (lit "文档生成成功！");
                 show_download generated_doc_bytes download_name download_mime]
            | None => []
            end
      | None => []
      end
  | None => []
  end.

(** Lines 274 and 275: the temporary file is removed. *)
Definition page_cleanup (st : PageState) : PageState :=
  if path_exists (disk st) page_temp_path
  then {| extracted_data := extracted_data st; cached := cached st;
          disk := remove_file (disk st) page_temp_path |}
  else st.

(** One run of the script. *)
Definition page_run (h : Host) (inp : Inputs) (st : PageState)
  : PageState * list element :=
  let '(st1, shown1) := page_extract h inp st in
  let shown2 := page_generate h inp st1 in
  (page_cleanup st1, shown1 ++ shown2).

(** ** Further notions for the statements *)

(** A paragraph and a document reduced to their texts: one run per
    paragraph, no formatting, no table inside a cell. *)
Definition text_only_paragraph (p : Paragraph) : Paragraph :=
  plain_paragraph (para_text p).

Definition text_only_cell (c : Cell) : Cell :=
  map (fun p => BPara (text_only_paragraph p)) (cell_paragraphs c).

Definition text_only_block (b : Block) : Block :=
  match b with
  | BPara p => BPara (text_only_paragraph p)
  | BTable t => BTable (map (map text_only_cell) t)
  end.

Definition text_only (d : Document) : Document :=
  {| body := map text_only_block (body d) |}.

(** The record with every optional field that holds the empty string made
    absent. *)
Definition none_if_empty (x : option str) : option str :=
  match x with
  | Some [] => None
  | _ => x
  end.

Definition party_none_if_empty (p : PartyInfo) : PartyInfo :=
  {| name := none_if_empty (name p); gender := none_if_empty (gender p);
     ethnicity := none_if_empty (ethnicity p); dob := none_if_empty (dob p);
     address := none_if_empty (address p); id_card := none_if_empty (id_card p);
     contact := none_if_empty (contact p) |}.

Definition lawsuit_none_if_empty (data : Lawsuit) : Lawsuit :=
  {| plaintiff := party_none_if_empty (plaintiff data);
     defendant := party_none_if_empty (defendant data);
     claims := claims data;
     facts_and_reasons := facts_and_reasons data;
     court_name := none_if_empty (court_name data);
     date := none_if_empty (date data) |}.



(** A host for the examples: a file that begins with the byte 80 opens as the
    given document, any other file is turned down; the model answers and the
    parser accepts the answer as the given record. *)
Definition host_with (doc : Document) (answer : Lawsuit) : Host :=
  {| parse_docx := fun content =>
       match content with
       | 80%N :: _ => Returns doc
       | _ => Fails (lit "File is not a zip file")
       end;
     host_format_instructions := lit "{}";
     host_model := fun _ _ _ => Returns (lit "{}");
     host_parser := fun _ => Returns answer |}.

Definition no_files : files := fun _ => None.

Definition fresh_page : PageState :=
  {| extracted_data := None; cached := []; disk := no_files |}.

(** A text that begins and ends with characters that are not whitespace. *)
Definition firm (t : str) : Prop :=
  (exists c y, t = c :: y /\ is_space c = false) /\
  (exists z d, t = z ++ [d] /\ is_space d = false).

Definition blank_document : Document :=
  {| body := [ BPara (plain_paragraph (lit "   "));
               BTable [[ [BPara (plain_paragraph [])] ]] ] |}.

(** A world in which the parser accepts the answer of the model as the given
    record. *)
Definition world_accepting (doc : Document) (answer : Lawsuit) : World :=
  {| docx_Document := fun _ => Returns doc;
     get_format_instructions := lit "{}";
     model_invoke := fun _ _ _ => Returns (lit "{}");
     parser_parse := fun _ => Returns answer |}.

(** The user has typed a key, uploaded the given file and pressed the
    extraction button. *)
Definition extraction_request (content : raw) : Inputs :=
  {| env_api_key := None; typed_api_key := lit "sk-1";
     uploaded_file := Some content; start_clicked := true;
     submitted := None |}.


(** * Properties *)

(** ** Strings *)

Lemma starts_with_spec (p s : str) :
  starts_with p s = true <-> exists r, s = p ++ r.
Proof.
  revert s; induction p as [|a p IH]; intros s; simpl.
  - split; [exists s; reflexivity | reflexivity].
  - destruct s as [|b s]; simpl.
    + split; [discriminate | intros [r Hr]; discriminate].
    + rewrite andb_true_iff, N.eqb_eq, IH. split.
      * intros [-> [r ->]]. exists r. reflexivity.
      * intros [r Hr]. injection Hr as -> ->. split; [reflexivity | exists r; reflexivity].
Qed.

Lemma starts_with_app (p r : str) : starts_with p (p ++ r) = true.
Proof. apply starts_with_spec. exists r. reflexivity. Qed.


Lemma contains_spec (key s : str) :
  contains key s = true <-> exists a b, s = a ++ key ++ b.
Proof.
  induction s as [|c s IH]; simpl.
  - rewrite orb_false_r, starts_with_spec. split.
    + intros [r Hr]. exists [], r. exact Hr.
    + intros [a [b H]]. destruct a; [exists b; exact H | discriminate].
  - rewrite orb_true_iff, starts_with_spec, IH. split.
    + intros [[r Hr] | [a [b H]]].
      * exists [], r. exact Hr.
      * exists (c :: a), b. simpl. rewrite H. reflexivity.
    + intros [a [b H]]. destruct a as [|c' a]; simpl in H.
      * left. exists b. exact H.
      * right. injection H as _ H. exists a, b. exact H.
Qed.

Lemma contains_app (a key b : str) : contains key (a ++ key ++ b) = true.
Proof. apply contains_spec. exists a, b. reflexivity. Qed.



Lemma contains_in_nil (x : str) : contains x [] = true -> x = [].
Proof. destruct x; [reflexivity | discriminate]. Qed.

Lemma contains_first_char (c : char) (k' s : str) :
  contains (c :: k') s = true -> In c s.
Proof.
  intros H. apply contains_spec in H. destruct H as [a [b ->]].
  apply in_or_app. right. left. reflexivity.
Qed.


Lemma contains_false_app (key a b : str) :
  contains key (a ++ b) = false -> contains key a = false /\ contains key b = false.
Proof.
  intros H. split.
  - destruct (contains key a) eqn:E; [|reflexivity].
    apply contains_spec in E. destruct E as [x [y ->]].
    rewrite <- H. symmetry. apply contains_spec.
    exists x, (y ++ b). rewrite <- !app_assoc. reflexivity.
  - destruct (contains key b) eqn:E; [|reflexivity].
    apply contains_spec in E. destruct E as [x [y ->]].
    rewrite <- H. symmetry. apply contains_spec.
    exists (a ++ x), y. rewrite <- !app_assoc. reflexivity.
Qed.


Lemma contains_concat (x : str) (l : list str) :
  In x l -> contains x (concat l) = true.
Proof.
  intros H. apply in_split in H. destruct H as [l1 [l2 ->]].
  rewrite concat_app. cbn [concat]. apply contains_app.
Qed.

Lemma contains_concat_false (key : str) (l : list str) :
  contains key (concat l) = false -> Forall (fun t => contains key t = false) l.
Proof.
  induction l as [|t l IH]; intros H; constructor.
  - simpl in H. apply contains_false_app in H. apply H.
  - apply IH. simpl in H. apply contains_false_app in H. apply H.
Qed.

Lemma endswith_spec (s suffix : str) :
  endswith s suffix = true <-> exists a, s = a ++ suffix.
Proof.
  unfold endswith. rewrite starts_with_spec. split.
  - intros [r Hr]. exists (rev r).
    rewrite <- (rev_involutive s), Hr, rev_app_distr, rev_involutive.
    reflexivity.
  - intros [a ->]. exists (rev a). apply rev_app_distr.
Qed.

Lemma mutual_prefix (a b : str) :
  starts_with a b = true -> starts_with b a = true -> a = b.
Proof.
  intros H1 H2. apply starts_with_spec in H1, H2.
  destruct H1 as [x Hx], H2 as [y Hy].
  assert (L : length x = 0).
  { apply (f_equal (@length _)) in Hx, Hy. rewrite length_app in Hx, Hy. lia. }
  destruct x; [|discriminate]. rewrite app_nil_r in Hx. symmetry. exact Hx.
Qed.

Lemma str_eqb_eq (a b : str) : str_eqb a b = true <-> a = b.
Proof.
  revert b. induction a as [|x a IH]; intros [|y b]; simpl;
    try (split; [discriminate | discriminate]); [split; reflexivity|].
  rewrite andb_true_iff, N.eqb_eq, IH. split.
  - intros [-> ->]. reflexivity.
  - intros H. injection H as -> ->. split; reflexivity.
Qed.

Lemma str_eqb_refl (a : str) : str_eqb a a = true.
Proof. apply str_eqb_eq. reflexivity. Qed.

(** Enough fuel is the length of the string. *)
Lemma replace_from_enough (old new : str) (n : nat) :
  old <> [] ->
  forall m s, length s <= n -> n <= m ->
    replace_from m old new s = replace_from n old new s.
Proof.
  intros Hold. induction n as [|n IH]; intros m s Hs Hm.
  - destruct s; [|simpl in Hs; lia].
    destruct m; [reflexivity|]. simpl.
    destruct old as [|o old]; [contradiction|]. reflexivity.
  - destruct m as [|m]; [lia|]. simpl.
    destruct (starts_with old s) eqn:E.
    + f_equal. apply IH; [|lia].
      rewrite length_skipn. destruct old as [|o old]; [contradiction|].
      destruct s; [discriminate|]. simpl in *. lia.
    + destruct s as [|c s]; [reflexivity|].
      f_equal. apply IH; simpl in *; lia.
Qed.

(** The equation of [replace] for a non-empty key. *)
Lemma replace_eq (old new s : str) :
  old <> [] ->
  replace old new s =
    if starts_with old s
    then new ++ replace old new (skipn (length old) s)
    else match s with
         | [] => []
         | c :: s' => c :: replace old new s'
         end.
Proof.
  intros Hold. unfold replace.
  destruct old as [|o old']; [contradiction|].
  destruct s as [|c s].
  - reflexivity.
  - change (length (c :: s)) with (S (length s)).
    cbn [replace_from].
    destruct (starts_with (o :: old') (c :: s)) eqn:E.
    + f_equal. apply replace_from_enough; [discriminate | lia |].
      rewrite length_skipn. simpl. lia.
    + reflexivity.
Qed.

Lemma replace_nil (old new : str) : old <> [] -> replace old new [] = [].
Proof.
  intros H. destruct old; [contradiction | reflexivity].
Qed.

Lemma replace_cons_skip (old new : str) (c : char) (s : str) :
  old <> [] -> starts_with old (c :: s) = false ->
  replace old new (c :: s) = c :: replace old new s.
Proof. intros H E. rewrite replace_eq by exact H. rewrite E. reflexivity. Qed.

Lemma replace_hit (old new r : str) :
  old <> [] -> replace old new (old ++ r) = new ++ replace old new r.
Proof.
  intros H. rewrite replace_eq by exact H.
  rewrite starts_with_app, skipn_app, skipn_all, Nat.sub_diag. reflexivity.
Qed.

(** A string without the key is left as it is. *)
Lemma replace_absent (old new s : str) :
  old <> [] -> contains old s = false -> replace old new s = s.
Proof.
  intros H. induction s as [|c s IH]; intros E.
  - apply replace_nil, H.
  - simpl in E. apply orb_false_iff in E. destruct E as [E1 E2].
    rewrite replace_cons_skip by assumption. f_equal. apply IH, E2.
Qed.

(** ** Trimming and joining *)

Lemma lstrip_suffix (s : str) : exists a, s = a ++ lstrip s.
Proof.
  induction s as [|c s [a IH]]; [exists []; reflexivity|].
  cbn [lstrip]. destruct (is_space c).
  - exists (c :: a). cbn [app]. f_equal. exact IH.
  - exists []. reflexivity.
Qed.

Lemma lstrip_first (s : str) (c : char) (r : str) :
  lstrip s = c :: r -> is_space c = false.
Proof.
  induction s as [|d s IH]; cbn [lstrip]; [discriminate|].
  destruct (is_space d) eqn:E; [exact IH|].
  intros H. injection H as <- _. exact E.
Qed.


Lemma rstrip_prefix (s : str) : exists b, s = rstrip s ++ b.
Proof.
  unfold rstrip. destruct (lstrip_suffix (rev s)) as [a Ha].
  exists (rev a).
  rewrite <- rev_app_distr, <- Ha, rev_involutive. reflexivity.
Qed.



(** A trimmed text that is not empty begins and ends with characters that
    are not whitespace. *)
Lemma strip_ends (s : str) :
  strip s <> [] ->
  (exists c y, strip s = c :: y /\ is_space c = false) /\
  (exists y d, strip s = y ++ [d] /\ is_space d = false).
Proof.
  intros Hne. split.
  - destruct (strip s) as [|c y] eqn:E; [contradiction|].
    exists c, y. split; [reflexivity|].
    unfold strip in E.
    destruct (rstrip_prefix (lstrip s)) as [b Hb]. rewrite E in Hb.
    apply (@lstrip_first s c (y ++ b)). exact Hb.
  - unfold strip, rstrip in *.
    destruct (lstrip (rev (lstrip s))) as [|d z] eqn:E; [contradiction|].
    exists (rev z), d. split; [reflexivity|].
    apply (lstrip_first _ E).
Qed.





(** ** Lookup in [replacements] *)

Lemma lookup_in (reps : list (str * str)) (k v : str) :
  distinct (map fst reps) = true -> In (k, v) reps -> lookup reps k = Some v.
Proof.
  induction reps as [|[k0 v0] reps IH]; [contradiction|].
  cbn [map fst distinct lookup]. intros Hd Hin.
  apply andb_true_iff in Hd. destruct Hd as [Hnot Hd].
  destruct Hin as [Hin | Hin].
  - injection Hin as -> ->. rewrite str_eqb_refl. reflexivity.
  - destruct (str_eqb k0 k) eqn:E; [|apply IH; assumption].
    exfalso. apply negb_true_iff in Hnot.
    assert (Hex : existsb (str_eqb k0) (map fst reps) = true).
    { apply existsb_exists. exists k. split; [|exact E].
      apply (in_map fst) in Hin. exact Hin. }
    rewrite Hex in Hnot. discriminate.
Qed.

Lemma lookup_key (reps : list (str * str)) (k : str) :
  In k (map fst reps) -> exists v, lookup reps k = Some v /\ In (k, v) reps.
Proof.
  induction reps as [|[k0 v0] reps IH]; [contradiction|].
  cbn [map fst lookup]. intros Hin.
  destruct (str_eqb k0 k) eqn:E.
  - apply str_eqb_eq in E. subst k0. exists v0. split; [reflexivity | left; reflexivity].
  - destruct Hin as [-> | Hin]; [rewrite str_eqb_refl in E; discriminate|].
    destruct (IH Hin) as [v [Hv Hin']]. exists v. split; [exact Hv | right; exact Hin'].
Qed.

Lemma tokens_distinct : distinct tokens = true.
Proof. vm_compute. reflexivity. Qed.

(** ** The extracted text *)

Lemma fold_append_nonempty {A : Type} (f : A -> str) (l : list A) (acc : list str) :
  fold_left (fun parts x => append_nonempty parts (f x)) l acc
  = acc ++ filter nonempty (map f l).
Proof.
  revert acc. induction l as [|x l IH]; intros acc; simpl.
  - symmetry. apply app_nil_r.
  - rewrite IH. unfold append_nonempty. destruct (f x); simpl.
    + reflexivity.
    + rewrite <- app_assoc. reflexivity.
Qed.

Lemma fold_rows (f : Cell -> str) (t : Table) (acc : list str) :
  fold_left (fun parts row =>
      fold_left (fun parts cell => append_nonempty parts (f cell)) row parts)
    t acc
  = acc ++ filter nonempty (map f (concat t)).
Proof.
  revert acc. induction t as [|row t IH]; intros acc; simpl.
  - symmetry. apply app_nil_r.
  - rewrite IH, fold_append_nonempty, map_app, filter_app, app_assoc.
    reflexivity.
Qed.

Lemma fold_tables (f : Cell -> str) (ts : list Table) (acc : list str) :
  fold_left (fun parts table =>
      fold_left (fun parts row =>
          fold_left (fun parts cell => append_nonempty parts (f cell)) row parts)
        table parts)
    ts acc
  = acc ++ filter nonempty (map f (concat (concat ts))).
Proof.
  revert acc. induction ts as [|t ts IH]; intros acc; simpl.
  - symmetry. apply app_nil_r.
  - rewrite IH, fold_rows, concat_app, map_app, filter_app, app_assoc.
    reflexivity.
Qed.

Lemma extract_parts_spec (d : Document) :
  extract_parts d =
    filter nonempty (map (fun p => strip (para_text p)) (paragraphs d)) ++
    filter nonempty
      (map (fun c => strip (cell_text c)) (concat (concat (tables d)))).
Proof.
  unfold extract_parts.
  rewrite (fold_tables (fun c => strip (cell_text c))).
  rewrite (fold_append_nonempty (fun p => strip (para_text p))).
  reflexivity.
Qed.

Lemma paragraphs_of_paragraphs_first (d : Document) :
  paragraphs (paragraphs_first d) = paragraphs d.
Proof.
  unfold paragraphs, paragraphs_first. cbn [body].
  rewrite flat_map_app.
  assert (H1 : forall ps, flat_map block_paragraphs (map BPara ps) = ps).
  { induction ps; simpl; [reflexivity | f_equal; assumption]. }
  assert (H2 : forall ts, flat_map block_paragraphs (map BTable ts) = []).
  { induction ts; simpl; assumption || reflexivity. }
  rewrite H1, H2. apply app_nil_r.
Qed.

Lemma tables_of_paragraphs_first (d : Document) :
  tables (paragraphs_first d) = tables d.
Proof.
  unfold tables, paragraphs_first. cbn [body].
  rewrite flat_map_app.
  assert (H1 : forall ps, flat_map block_tables (map BPara ps) = []).
  { induction ps; simpl; assumption || reflexivity. }
  assert (H2 : forall ts, flat_map block_tables (map BTable ts) = ts).
  { induction ts; simpl; [reflexivity | f_equal; assumption]. }
  rewrite H1, H2. reflexivity.
Qed.

(** C2. The text handed to the model is the trimmed non-empty paragraph texts
    in document order followed by the trimmed non-empty cell texts in table,
    row, cell order, joined by a newline; it is the same as for the document
    with every paragraph moved in front of every table, so wherever the tables
    stand their content comes last; paragraphs A and B with a one-cell table C
    give A, B, C on three lines, also when the table stands first. *)
Theorem extract_content_paragraphs_then_tables :
  (forall d : Document,
     extract_content d = extract_text_spec d /\
     extract_content d = extract_content (paragraphs_first d)) /\
  extract_content
    {| body := [ BPara (plain_paragraph (lit "A"));
                 BPara (plain_paragraph (lit "B"));
                 BTable [[ [BPara (plain_paragraph (lit "C"))] ]] ] |}
    = lit "A" ++ NL ++ lit "B" ++ NL ++ lit "C" /\
  extract_content
    {| body := [ BTable [[ [BPara (plain_paragraph (lit "C"))] ]];
                 BPara (plain_paragraph (lit "A"));
                 BPara (plain_paragraph (lit "B")) ] |}
    = lit "A" ++ NL ++ lit "B" ++ NL ++ lit "C".
Proof.
  split; [|split; reflexivity].
  intros d. split.
  - unfold extract_content, extract_text_spec. f_equal. apply extract_parts_spec.
  - unfold extract_content. f_equal. rewrite !extract_parts_spec.
    rewrite paragraphs_of_paragraphs_first, tables_of_paragraphs_first.
    reflexivity.
Qed.





(** ** The loops of [generate_docx] *)

Lemma with_text_same (r : Run) : with_text r (text r) = r.
Proof. destruct r; reflexivity. Qed.

Lemma nth_error_middle {A : Type} (done : list A) (x : A) (rest : list A) :
  nth_error (done ++ x :: rest) (length done) = Some x.
Proof. induction done; simpl; auto. Qed.

Lemma set_nth_middle {A : Type} (done : list A) (x y : A) (rest : list A) :
  set_nth (length done) y (done ++ x :: rest) = done ++ y :: rest.
Proof. induction done; simpl; [reflexivity | f_equal; assumption]. Qed.

Lemma replace_in_runs_from (key value : str) (rest done : list Run) :
  fold_left
    (fun inline i =>
       match nth_error inline i with
       | Some r =>
           if contains key (text r)
           then set_nth i (with_text r (replace key value (text r))) inline
           else inline
       | None => inline
       end)
    (seq (length done) (length rest)) (done ++ rest)
  = done ++ map (run_step key value) rest.
Proof.
  revert done. induction rest as [|r rest IH]; intros done.
  - reflexivity.
  - cbn [length seq fold_left map].
    rewrite nth_error_middle.
    assert (E : (if contains key (text r)
                 then set_nth (length done)
                        (with_text r (replace key value (text r))) (done ++ r :: rest)
                 else done ++ r :: rest)
                = (done ++ [run_step key value r]) ++ rest).
    { unfold run_step. destruct (contains key (text r)).
      - rewrite set_nth_middle, <- app_assoc. reflexivity.
      - rewrite <- app_assoc. reflexivity. }
    rewrite E.
    replace (S (length done)) with (length (done ++ [run_step key value r]))
      by (rewrite length_app; simpl; lia).
    rewrite IH, <- app_assoc. reflexivity.
Qed.

Lemma replace_in_runs_map (key value : str) (inline : list Run) :
  replace_in_runs key value inline = map (run_step key value) inline.
Proof. exact (replace_in_runs_from key value inline []). Qed.

Lemma run_step_replace (key value : str) (r : Run) :
  key <> [] -> run_step key value r = with_text r (replace key value (text r)).
Proof.
  intros H. unfold run_step. destruct (contains key (text r)) eqn:E.
  - reflexivity.
  - rewrite replace_absent by assumption. symmetry. apply with_text_same.
Qed.

Lemma para_step_runs (para : Paragraph) (key value : str) :
  key <> [] ->
  para_step para (key, value) =
    {| runs := map (fun r => with_text r (replace key value (text r))) (runs para) |}.
Proof.
  intros H. unfold para_step.
  destruct (contains key (para_text para)) eqn:E.
  - rewrite replace_in_runs_map. f_equal.
    apply map_ext. intros r. apply run_step_replace, H.
  - destruct para as [rs]. f_equal. simpl.
    apply contains_concat_false in E. simpl in E.
    induction rs as [|r rs IH]; [reflexivity|].
    simpl in E. inversion E as [|? ? E1 E2]; subst.
    simpl. rewrite replace_absent by assumption.
    rewrite with_text_same. f_equal. apply IH, E2.
Qed.

Lemma replace_in_paragraph_fold (reps : list (str * str)) (para : Paragraph) :
  replace_in_paragraph reps para = fold_left para_step reps para.
Proof.
  unfold replace_in_paragraph. revert para.
  induction reps as [|[k v] reps IH]; intros para; [reflexivity|].
  simpl. apply IH.
Qed.

Lemma replace_all_cons (kv : str * str) (reps : list (str * str)) (t : str) :
  replace_all (kv :: reps) t = replace_all reps (replace (fst kv) (snd kv) t).
Proof. reflexivity. Qed.

(** Every run of a paragraph goes through the replacements on its own. *)
Lemma replace_in_paragraph_runs (reps : list (str * str)) (para : Paragraph) :
  keys_nonempty reps ->
  replace_in_paragraph reps para =
    {| runs := map (fun r => with_text r (replace_all reps (text r))) (runs para) |}.
Proof.
  rewrite replace_in_paragraph_fold.
  intros H. revert para. induction H as [|[k v] reps Hk _ IH]; intros para.
  - simpl. destruct para as [rs]. f_equal. simpl.
    rewrite <- (map_id rs) at 1. apply map_ext. intros r.
    symmetry. apply with_text_same.
  - cbn [fold_left]. rewrite para_step_runs by exact Hk.
    rewrite IH. cbn [runs]. f_equal. rewrite map_map.
    apply map_ext. intros r. reflexivity.
Qed.

Lemma replaced_texts (reps : list (str * str)) (para : Paragraph) :
  keys_nonempty reps ->
  map text (runs (replace_in_paragraph reps para))
  = map (replace_all reps) (map text (runs para)).
Proof.
  intros H. rewrite replace_in_paragraph_runs by exact H.
  cbn [runs]. rewrite !map_map. reflexivity.
Qed.

Lemma replacements_keys_nonempty (data : Lawsuit) :
  keys_nonempty (replacements data).
Proof. unfold keys_nonempty, replacements. repeat constructor; discriminate. Qed.

Lemma replacements_keys (data : Lawsuit) : map fst (replacements data) = tokens.
Proof. reflexivity. Qed.

Lemma replacements_distinct (data : Lawsuit) :
  distinct (map fst (replacements data)) = true.
Proof. rewrite replacements_keys. apply tokens_distinct. Qed.

Lemma filled_paragraph_text (data : Lawsuit) (p : Paragraph) :
  para_text (replace_in_paragraph (replacements data) p)
  = concat (map (fun r => replace_all (replacements data) (text r)) (runs p)).
Proof.
  unfold para_text.
  rewrite replaced_texts by apply replacements_keys_nonempty.
  rewrite map_map. reflexivity.
Qed.

(** A paragraph whose text holds none of the keys goes through the loop over
    [replacements] as it is. *)
Lemma para_step_absent (para : Paragraph) (key value : str) :
  contains key (para_text para) = false -> para_step para (key, value) = para.
Proof. intros H. unfold para_step. rewrite H. reflexivity. Qed.

Lemma replace_in_paragraph_absent (reps : list (str * str)) (para : Paragraph) :
  Forall (fun kv => contains (fst kv) (para_text para) = false) reps ->
  replace_in_paragraph reps para = para.
Proof.
  rewrite replace_in_paragraph_fold.
  induction 1 as [|[k v] reps Hk _ IH]; [reflexivity|].
  cbn [fold_left]. rewrite para_step_absent by exact Hk. exact IH.
Qed.

Lemma no_token_unchanged (data : Lawsuit) (para : Paragraph) :
  no_token para -> replace_in_paragraph (replacements data) para = para.
Proof.
  intros H. apply replace_in_paragraph_absent.
  unfold no_token in H. rewrite <- (replacements_keys data) in H.
  rewrite Forall_map in H. exact H.
Qed.

(** ** The shape of the filled document *)

Lemma paragraphs_on_paragraph (f : Paragraph -> Paragraph) (bs : list Block) :
  flat_map block_paragraphs (map (on_paragraph f) bs)
  = map f (flat_map block_paragraphs bs).
Proof.
  induction bs as [|[p|t] bs IH]; simpl; [reflexivity | f_equal; exact IH | exact IH].
Qed.

Lemma tables_on_paragraph (f : Paragraph -> Paragraph) (bs : list Block) :
  flat_map block_tables (map (on_paragraph f) bs) = flat_map block_tables bs.
Proof.
  induction bs as [|[p|t] bs IH]; simpl; [reflexivity | exact IH | f_equal; exact IH].
Qed.

Lemma paragraphs_on_table (f : Table -> Table) (bs : list Block) :
  flat_map block_paragraphs (map (on_table f) bs) = flat_map block_paragraphs bs.
Proof.
  induction bs as [|[p|t] bs IH]; simpl; [reflexivity | f_equal; exact IH | exact IH].
Qed.

Lemma tables_on_table (f : Table -> Table) (bs : list Block) :
  flat_map block_tables (map (on_table f) bs) = map f (flat_map block_tables bs).
Proof.
  induction bs as [|[p|t] bs IH]; simpl; [reflexivity | exact IH | f_equal; exact IH].
Qed.

Lemma fill_paragraphs_of (data : Lawsuit) (d : Document) :
  paragraphs (fill data d)
  = map (replace_in_paragraph (replacements data)) (paragraphs d).
Proof.
  unfold fill, fill_tables, fill_paragraphs, paragraphs. cbn [body].
  rewrite paragraphs_on_table, paragraphs_on_paragraph. reflexivity.
Qed.

Lemma fill_tables_of (data : Lawsuit) (d : Document) :
  tables (fill data d)
  = map (map (map (fill_cell (replacements data)))) (tables d).
Proof.
  unfold fill, fill_tables, fill_paragraphs, tables. cbn [body].
  rewrite tables_on_table, tables_on_paragraph. reflexivity.
Qed.

Lemma fill_cell_paragraphs (reps : list (str * str)) (c : Cell) :
  cell_paragraphs (fill_cell reps c)
  = map (replace_in_paragraph reps) (cell_paragraphs c).
Proof. apply paragraphs_on_paragraph. Qed.


Lemma fill_cells_paragraphs (reps : list (str * str)) (cs : list Cell) :
  flat_map cell_paragraphs (map (fill_cell reps) cs)
  = map (replace_in_paragraph reps) (flat_map cell_paragraphs cs).
Proof.
  induction cs as [|c cs IH]; simpl; [reflexivity|].
  rewrite map_app, IH, fill_cell_paragraphs. reflexivity.
Qed.

Lemma fill_visited (data : Lawsuit) (d : Document) :
  visited_paragraphs (fill data d)
  = map (replace_in_paragraph (replacements data)) (visited_paragraphs d).
Proof.
  unfold visited_paragraphs.
  rewrite fill_paragraphs_of, fill_tables_of, map_app. f_equal.
  rewrite <- fill_cells_paragraphs. f_equal.
  generalize (tables d). intros ts.
  induction ts as [|t ts IH]; [reflexivity|].
  cbn [map concat]. rewrite !concat_app, map_app, IH. f_equal.
  clear IH. induction t as [|row t IH]; [reflexivity|].
  cbn [map concat]. rewrite map_app, IH. reflexivity.
Qed.






Lemma generate_docx_ok (w : World) (data : Lawsuit) (template_path : str)
      (doc : Document) :
  docx_Document w template_path = Returns doc ->
  generate_docx w data template_path = (Some (docx_bytes (fill data doc)), []).
Proof.
  intros H. unfold generate_docx, generate_docx_try. rewrite H. reflexivity.
Qed.





(** ** Failures *)



(** C7, as stated, fails in both directions: a file that is not a document
    but is named [.docx] fails with the message of the library, not with the
    unsupported-format message; and a file that opens as a document but is
    named [.doc] is turned down as unsupported. *)
Lemma unsupported_format_is_not_by_content :
  extract_lawsuit_data world_without_docx (lit "legacy.docx") (lit "key")
    = (None, [st_error (lit "信息提取失败: File is not a zip file")]) /\
  docx_Document (world_with letter) (lit "brief.doc") = Returns letter /\
  extract_lawsuit_data (world_with letter) (lit "brief.doc") (lit "key")
    = (None, [st_error (lit "信息提取失败: " ++ unsupported_msg)]).
Proof. repeat split; reflexivity. Qed.

(** C7, amended. The extraction raises its unsupported-format error exactly
    when the path, in lower case, does not end in [.docx]; it then returns
    nothing and puts that message on the page, whatever the file holds. *)
Theorem unsupported_format_by_file_name (w : World) (file_path api_key : str) :
  (extract_lawsuit_data_try w file_path api_key
     = Raised (ValueError unsupported_msg)
   <-> endswith (lower file_path) (lit ".docx") = false) /\
  (endswith (lower file_path) (lit ".docx") = false ->
   extract_lawsuit_data w file_path api_key
     = (None, [st_error (lit "信息提取失败: " ++ unsupported_msg)])).
Proof.
  unfold extract_lawsuit_data, extract_lawsuit_data_try.
  destruct (endswith (lower file_path) (lit ".docx")); cbn [negb]; split.
  - split; [|discriminate].
    destruct (docx_Document w file_path) as [doc|m]; cbn [call bind]; [|discriminate].
    destruct (model_invoke w api_key model_name _) as [a|m]; cbn [call bind];
      [|discriminate].
    destruct (parser_parse w a); cbn [call]; discriminate.
  - discriminate.
  - split; reflexivity.
  - reflexivity.
Qed.

Lemma unsupported_format_by_file_name_witness :
  extract_lawsuit_data (world_with letter) (lit "Brief.DOC") (lit "key")
    = (None, [st_error (lit "信息提取失败: " ++ unsupported_msg)]).
Proof.
  apply (proj2 (unsupported_format_by_file_name
                  (world_with letter) (lit "Brief.DOC") (lit "key"))).
  reflexivity.
Defined.

(** C8. When the file opens, the model answers and the parser turns the
    answer down, [extract_lawsuit_data] returns [None], no record, and puts
    on the page one error: the extraction-failure heading followed by the
    message of the parser. Nothing is raised to the caller. *)
Theorem malformed_answer_gives_failure
        (w : World) (file_path api_key : str) (doc : Document)
        (answer msg : str) :
  endswith (lower file_path) (lit ".docx") = true ->
  docx_Document w file_path = Returns doc ->
  model_invoke w api_key model_name
    (format_prompt (extract_content doc) (get_format_instructions w))
    = Returns answer ->
  parser_parse w answer = Fails msg ->
  extract_lawsuit_data w file_path api_key
    = (None, [st_error (lit "信息提取失败: " ++ msg)]).
Proof.
  intros Hext Hdoc Hmodel Hparse.
  unfold extract_lawsuit_data, extract_lawsuit_data_try.
  rewrite Hext, Hdoc. cbn [negb call bind].
  rewrite Hmodel. cbn [call bind]. rewrite Hparse. reflexivity.
Qed.

Lemma malformed_answer_gives_failure_witness :
  extract_lawsuit_data (world_with letter) (lit "temp_uploaded_file.docx") (lit "key")
    = (None, [st_error (lit "信息提取失败: " ++ lit "claims: Field required")]).
Proof.
  apply (@malformed_answer_gives_failure
           (world_with letter) (lit "temp_uploaded_file.docx") (lit "key")
           letter (lit "{}") (lit "claims: Field required"));
    reflexivity.
Defined.

(** ** The order of the replacements *)


(** ** Scanning for a placeholder *)

Lemma tokens_ok : forallb token_ok tokens = true.
Proof. vm_compute. reflexivity. Qed.

Lemma token_ok_shape (k : str) : token_ok k = true -> key_shape k.
Proof.
  unfold token_ok. rewrite !andb_true_iff. intros [[H1 H2] H3].
  constructor.
  - apply starts_with_spec in H1. destruct H1 as [r Hr]. exists r. exact Hr.
  - apply endswith_spec in H2. exact H2.
  - intros u w Hk Hu Hw.
    rewrite forallb_forall in H3.
    specialize (H3 (length u)).
    rewrite in_seq in H3.
    assert (Hlen : length k = length u + length w)
      by (rewrite Hk; apply length_app).
    assert (0 < length u) by (destruct u; [contradiction | simpl; lia]).
    assert (0 < length w) by (destruct w; [contradiction | simpl; lia]).
    specialize (H3 ltac:(lia)).
    rewrite Hk in H3.
    rewrite firstn_app, firstn_all, Nat.sub_diag in H3. cbn [firstn] in H3.
    rewrite app_nil_r in H3.
    rewrite skipn_app, skipn_all, Nat.sub_diag in H3. cbn [skipn app] in H3.
    apply andb_true_iff in H3. exact H3.
Qed.

Lemma token_shape (k : str) : In k tokens -> key_shape k.
Proof.
  intros H. apply token_ok_shape.
  pose proof tokens_ok as Hall. rewrite forallb_forall in Hall.
  apply Hall, H.
Qed.

Lemma key_shape_nonempty (k : str) : key_shape k -> k <> [].
Proof. intros [[k' ->] _ _]. discriminate. Qed.


Lemma head_safe_cons (c : char) (w : str) :
  head_safe (c :: w) = true ->
  (c <> LB \/ exists d w', w = d :: w' /\ d <> LB) /\ head_safe w = true.
Proof.
  cbn [head_safe]. rewrite andb_true_iff, orb_true_iff, negb_true_iff, N.eqb_neq.
  intros [[Hc | Hd] Hw]; (split; [|exact Hw]).
  - left. exact Hc.
  - right. destruct w as [|d w']; [discriminate|].
    exists d, w'. split; [reflexivity|].
    apply negb_true_iff, N.eqb_neq in Hd. exact Hd.
Qed.

Section Opening.

(** A key that begins with two opening braces. *)
Variables key value : str.
Hypothesis opens : exists k', key = LB :: LB :: k'.

(** The key does not begin inside a [head_safe] stretch. *)
Lemma no_key_in_safe (c : char) (w b : str) :
  head_safe (c :: w) = true -> starts_with key (c :: w ++ b) = false.
Proof.
  destruct opens as [k' ->]. intros Hw.
  apply head_safe_cons in Hw. destruct Hw as [[Hc | (d & w' & -> & Hd)] _];
    cbn [app starts_with].
  - replace (LB =? c)%N with false; [reflexivity|].
    symmetry. apply N.eqb_neq. congruence.
  - replace (LB =? d)%N with false; [apply andb_false_r|].
    symmetry. apply N.eqb_neq. congruence.
Qed.

(** The key is not met while scanning a [head_safe] stretch. *)
Lemma replace_skip_safe (w b : str) :
  head_safe w = true ->
  replace key value (w ++ b) = w ++ replace key value b.
Proof.
  induction w as [|c w IH]; intros Hw; [reflexivity|].
  cbn [app]. rewrite replace_cons_skip.
  - f_equal. apply IH. apply (proj2 (@head_safe_cons c w Hw)).
  - destruct opens as [k' ->]. discriminate.
  - apply no_key_in_safe, Hw.
Qed.

Lemma contains_skip_safe (w b : str) :
  head_safe w = true -> contains key (w ++ b) = contains key b.
Proof.
  induction w as [|c w IH]; intros Hw; [reflexivity|].
  cbn [app contains]. rewrite (@no_key_in_safe c w b Hw). cbn [orb].
  apply IH. apply (proj2 (@head_safe_cons c w Hw)).
Qed.


End Opening.


Lemma brace_free_head_safe (t : str) : ~ In LB t -> head_safe t = true.
Proof.
  induction t as [|c t IH]; intros H; [reflexivity|].
  cbn [head_safe]. rewrite IH by (intros Hin; apply H; right; exact Hin).
  destruct (c =? LB)%N eqn:E.
  - apply N.eqb_eq in E. exfalso. apply H. left. exact E.
  - reflexivity.
Qed.



Lemma tokens_prefix_free : prefix_free tokens = true.
Proof. vm_compute. reflexivity. Qed.

Lemma token_at_token (key k rest : str) :
  In key tokens -> In k tokens ->
  starts_with key (k ++ rest) = true -> key = k.
Proof.
  intros Hkey Hk H.
  pose proof tokens_prefix_free as P. unfold prefix_free in P.
  rewrite forallb_forall in P. specialize (P key Hkey).
  rewrite forallb_forall in P. specialize (P k Hk).
  apply Bool.eqb_prop in P.
  apply starts_with_spec in H. destruct H as [r Hr].
  apply app_eq_app in Hr. destruct Hr as [l [[-> _] | [-> _]]].
  - rewrite starts_with_app in P. symmetry in P.
    apply mutual_prefix; [apply starts_with_app | exact P].
  - rewrite starts_with_app in P.
    apply mutual_prefix; [exact P | apply starts_with_app].
Qed.

(** A placeholder other than the key is passed over as a whole. *)
Lemma replace_other_token (key value k rest : str) :
  In key tokens -> In k tokens -> key <> k ->
  replace key value (k ++ rest) = k ++ replace key value rest.
Proof.
  intros Hkey Hk Hne.
  pose proof (token_shape Hkey) as Skey. pose proof (token_shape Hk) as Sk.
  destruct (key_opens Sk) as [k' Ek].
  assert (Hsafe : head_safe (LB :: k') = true).
  { apply (@key_split_safe k Sk [LB] (LB :: k')); [exact Ek | discriminate..]. }
  assert (E : starts_with key (k ++ rest) = false).
  { destruct (starts_with key (k ++ rest)) eqn:E; [|reflexivity].
    exfalso. apply Hne. apply (token_at_token rest Hkey Hk E). }
  rewrite Ek in *. cbn [app] in *.
  rewrite replace_cons_skip; [| apply key_shape_nonempty, Skey | exact E].
  f_equal.
  apply (@replace_skip_safe key value (key_opens Skey) (LB :: k') rest Hsafe).
Qed.

Lemma no_brace_no_token (k t : str) :
  In k tokens -> ~ In LB t -> contains k t = false.
Proof.
  intros Hk Ht. destruct (contains k t) eqn:E; [|reflexivity].
  destruct (key_opens (token_shape Hk)) as [k' ->].
  exfalso. apply Ht. apply contains_first_char in E. exact E.
Qed.

(** ** A placeholder cut by the runs *)








(** ** Templates made of ordinary text and whole placeholders *)

Lemma segment_step_text (key value : str) (segs : list segment) :
  In key tokens ->
  Forall segment_ok segs ->
  replace key value (segments_text segs)
  = segments_text (map (segment_step key value) segs).
Proof.
  intros Hkey. pose proof (token_shape Hkey) as Skey.
  assert (Hne : key <> []) by (apply key_shape_nonempty, Skey).
  induction 1 as [|s segs Hs _ IH].
  - apply replace_nil, Hne.
  - unfold segments_text in *. cbn [map concat].
    destruct s as [t|k]; cbn [segment_ok segment_text segment_step] in *.
    + rewrite (@replace_skip_safe key value (key_opens Skey) t _
                 (brace_free_head_safe _ Hs)).
      rewrite IH. reflexivity.
    + destruct (str_eqb key k) eqn:E.
      * apply str_eqb_eq in E. subst k.
        rewrite replace_hit by exact Hne. rewrite IH. reflexivity.
      * rewrite replace_other_token; [| exact Hkey | exact Hs |].
        -- rewrite IH. reflexivity.
        -- intros ->. rewrite str_eqb_refl in E. discriminate.
Qed.

Lemma segment_step_ok (key value : str) (segs : list segment) :
  ~ In LB value ->
  Forall segment_ok segs ->
  Forall segment_ok (map (segment_step key value) segs).
Proof.
  intros Hv. induction 1 as [|s segs Hs _ IH]; constructor; [|exact IH].
  destruct s as [t|k]; cbn [segment_step]; [exact Hs|].
  destruct (str_eqb key k); [exact Hv | exact Hs].
Qed.

Lemma resolve_step (key value : str) (reps : list (str * str)) (s : segment) :
  ~ In LB value ->
  segment_ok s ->
  resolve reps (segment_step key value s) = resolve ((key, value) :: reps) s.
Proof.
  intros Hv Hs. destruct s as [t|k]; cbn [segment_step resolve lookup]; [reflexivity|].
  destruct (str_eqb key k); reflexivity.
Qed.

(** On such a text the replacements made in turn come to the same as all
    made at once, when no value has an opening brace. *)
Lemma replace_all_segments (reps : list (str * str)) :
  Forall (fun kv => In (fst kv) tokens /\ ~ In LB (snd kv)) reps ->
  forall segs, Forall segment_ok segs ->
    replace_all reps (segments_text segs) = concat (map (resolve reps) segs).
Proof.
  induction 1 as [|[key value] reps [Hkey Hv] _ IH]; intros segs Hsegs.
  - reflexivity.
  - rewrite replace_all_cons. cbn [fst snd] in *.
    rewrite segment_step_text by assumption.
    rewrite IH by (apply segment_step_ok; assumption).
    rewrite map_map. f_equal.
    apply map_ext_in. intros s Hs.
    apply resolve_step; [exact Hv|].
    rewrite Forall_forall in Hsegs. apply Hsegs, Hs.
Qed.

(** A placeholder found in such a text is one of its pieces. *)
Lemma contains_token_segment (k : str) (segs : list segment) :
  In k tokens ->
  Forall segment_ok segs ->
  contains k (segments_text segs) = true ->
  In (Placeholder k) segs.
Proof.
  intros Hk. pose proof (token_shape Hk) as Sk.
  induction 1 as [|s segs Hs _ IH]; intros Hc.
  - apply contains_in_nil in Hc. exfalso. exact (key_shape_nonempty Sk Hc).
  - unfold segments_text in *. cbn [map concat] in Hc.
    destruct s as [t|k0]; cbn [segment_ok segment_text] in *.
    + rewrite (@contains_skip_safe k (key_opens Sk) t _
                 (brace_free_head_safe _ Hs)) in Hc.
      right. apply IH, Hc.
    + pose proof (token_shape Hs) as S0.
      destruct (key_opens S0) as [k0' E0].
      assert (Hsafe : head_safe (LB :: k0') = true).
      { apply (@key_split_safe k0 S0 [LB] (LB :: k0')); [exact E0 | discriminate..]. }
      destruct (starts_with k (k0 ++ concat (map segment_text segs))) eqn:E.
      * left. f_equal. symmetry. apply (token_at_token _ Hk Hs E).
      * right. apply IH.
        rewrite E0 in Hc, E. cbn [app contains] in Hc.
        cbn [app] in E. rewrite E in Hc. cbn [orb] in Hc.
        rewrite <- Hc. symmetry.
        apply (@contains_skip_safe k (key_opens Sk) (LB :: k0') _ Hsafe).
Qed.

Lemma replacements_entries (data : Lawsuit) :
  values_brace_free data ->
  Forall (fun kv => In (fst kv) tokens /\ ~ In LB (snd kv)) (replacements data).
Proof.
  intros Hv. apply Forall_forall. intros kv Hin. split.
  - rewrite <- (replacements_keys data). apply in_map, Hin.
  - apply Hv, Hin.
Qed.

(** With values free of opening braces, what a piece becomes has none. *)
Lemma resolve_brace_free (data : Lawsuit) (s : segment) :
  values_brace_free data -> segment_ok s ->
  ~ In LB (resolve (replacements data) s).
Proof.
  intros Hv Hs. destruct s as [t|k]; cbn [resolve segment_ok] in *; [exact Hs|].
  rewrite <- (replacements_keys data) in Hs.
  destruct (lookup_key _ _ Hs) as [v [-> Hin]].
  apply (Hv (k, v) Hin).
Qed.

Lemma in_concat_map {A : Type} (f : A -> str) (c : char) (l : list A) :
  In c (concat (map f l)) -> exists x, In x l /\ In c (f x).
Proof.
  intros H. apply in_concat in H. destruct H as [t [Ht Hc]].
  apply in_map_iff in Ht. destruct Ht as [x [<- Hx]]. exists x. split; assumption.
Qed.

(** The text of a run of such a template, after the replacements. *)
Lemma filled_run_text (data : Lawsuit) (t : str) :
  values_brace_free data -> made_of_segments t ->
  ~ In LB (replace_all (replacements data) t) /\
  forall kv, In kv (replacements data) -> contains (fst kv) t = true ->
             contains (snd kv) (replace_all (replacements data) t) = true.
Proof.
  intros Hv [segs [Hsegs ->]].
  rewrite (replace_all_segments (replacements_entries Hv) Hsegs).
  split.
  - intros Hin. apply in_concat_map in Hin. destruct Hin as [s [Hs Hc]].
    rewrite Forall_forall in Hsegs.
    exact (resolve_brace_free s Hv (Hsegs s Hs) Hc).
  - intros [k v] Hin Hc. cbn [fst snd] in *.
    assert (Hk : In k tokens).
    { rewrite <- (replacements_keys data). apply (in_map fst) in Hin. exact Hin. }
    apply (contains_token_segment Hk Hsegs) in Hc.
    apply contains_concat.
    apply in_map_iff. exists (Placeholder k). split; [|exact Hc].
    cbn [resolve].
    rewrite (@lookup_in (replacements data) k v (replacements_distinct data) Hin).
    reflexivity.
Qed.


Lemma filled_paragraph_brace_free (data : Lawsuit) (doc : Document) (q : Paragraph) :
  template_ok doc -> values_brace_free data ->
  In q (visited_paragraphs (fill data doc)) -> ~ In LB (para_text q).
Proof.
  intros Hdoc Hv Hq Hc.
  rewrite fill_visited in Hq. apply in_map_iff in Hq.
  destruct Hq as [p [<- Hp]].
  rewrite filled_paragraph_text in Hc.
  apply in_concat_map in Hc. destruct Hc as [r [Hr Hc]].
  exact (proj1 (filled_run_text Hv (Hdoc p r Hp Hr)) Hc).
Qed.

Lemma brace_free_values_sound (data : Lawsuit) :
  brace_free_values data = true -> values_brace_free data.
Proof.
  unfold brace_free_values. rewrite forallb_forall.
  intros H kv Hkv Hin. specialize (H kv Hkv). cbv beta in H.
  apply negb_true_iff, not_true_iff_false in H. apply H.
  apply existsb_exists. exists LB. split; [exact Hin | apply N.eqb_refl].
Qed.

Lemma full_template_ok : template_ok full_template.
Proof.
  intros p r Hp Hr.
  change (visited_paragraphs full_template)
    with (map plain_paragraph tokens ++ []) in Hp.
  rewrite app_nil_r in Hp. apply in_map_iff in Hp.
  destruct Hp as [k [<- Hk]].
  destruct Hr as [<- | []].
  exists [Placeholder k]. split.
  - constructor; [exact Hk | constructor].
  - cbn. symmetry. apply app_nil_r.
Qed.



(** ** The round trip of the placeholders *)




(** ** Absent fields *)





(** * Further properties *)

(** ** What [generate_docx] keeps *)







Lemma in_cells_of_tables (d : Document) (t : Table) (row : Row) (c : Cell) :
  In (BTable t) (body d) -> In row t -> In c row ->
  In c (concat (concat (tables d))).
Proof.
  intros Ht Hrow Hc.
  apply in_concat. exists row. split; [|exact Hc].
  apply in_concat. exists t. split; [|exact Hrow].
  unfold tables. apply in_flat_map. exists (BTable t).
  split; [exact Ht | left; reflexivity].
Qed.

(** A document whose reached paragraphs all go through the replacements as
    they are is filled to itself. *)
Lemma fill_unchanged (data : Lawsuit) (d : Document) :
  (forall p, In p (visited_paragraphs d) ->
             replace_in_paragraph (replacements data) p = p) ->
  fill data d = d.
Proof.
  intros H. destruct d as [b].
  unfold fill, fill_tables, fill_paragraphs. cbn [body]. f_equal.
  rewrite map_map. rewrite <- (map_id b) at 2.
  apply map_ext_in. intros blk Hblk.
  destruct blk as [p|t]; cbn [on_paragraph on_table].
  - f_equal. apply H. apply in_or_app. left.
    unfold paragraphs. cbn [body]. apply in_flat_map.
    exists (BPara p). split; [exact Hblk | left; reflexivity].
  - f_equal. rewrite <- (map_id t) at 2.
    apply map_ext_in. intros row Hrow.
    rewrite <- (map_id row) at 2.
    apply map_ext_in. intros c Hc.
    unfold fill_cell. rewrite <- (map_id c) at 2.
    apply map_ext_in. intros blk' Hblk'.
    destruct blk' as [p'|t']; cbn [on_paragraph]; [|reflexivity].
    f_equal. apply H. apply in_or_app. right.
    apply in_flat_map. exists c. split.
    + apply (@in_cells_of_tables {| body := b |} t row c); assumption.
    + unfold cell_paragraphs. apply in_flat_map.
      exists (BPara p'). split; [exact Hblk' | left; reflexivity].
Qed.

Lemma brace_free_no_token (p : Paragraph) : ~ In LB (para_text p) -> no_token p.
Proof.
  intros H. unfold no_token. apply Forall_forall. intros k Hk.
  apply no_brace_no_token; assumption.
Qed.

(** X3. A document that [generate_docx] made of a template of text without an
    opening brace and whole placeholders, for a record without an opening
    brace in its values, is returned as it is when it is given as the
    template of another generation, whatever the record. *)
Theorem filled_document_is_final
        (w : World) (data data' : Lawsuit) (template_path : str) (doc : Document) :
  template_ok doc ->
  values_brace_free data ->
  docx_Document w template_path = Returns (fill data doc) ->
  generate_docx w data' template_path = (Some (docx_bytes (fill data doc)), []).
Proof.
  intros Hdoc Hv Hopen.
  rewrite (generate_docx_ok w data' template_path Hopen).
  do 3 f_equal. apply fill_unchanged. intros p Hp.
  apply no_token_unchanged, brace_free_no_token.
  apply (@filled_paragraph_brace_free data doc p Hdoc Hv Hp).
Qed.

Lemma filled_document_is_final_witness :
  generate_docx (world_with (fill lawsuit_plain full_template))
                lawsuit_with_token_name (lit "template.docx")
    = (Some (docx_bytes (fill lawsuit_plain full_template)), []).
Proof.
  apply (@filled_document_is_final
           (world_with (fill lawsuit_plain full_template))
           lawsuit_plain lawsuit_with_token_name (lit "template.docx")
           full_template).
  - exact full_template_ok.
  - apply brace_free_values_sound. vm_compute. reflexivity.
  - reflexivity.
Defined.

Lemma or_empty_none_if_empty (x : option str) :
  or_empty (none_if_empty x) = or_empty x.
Proof. destruct x as [[|c s]|]; reflexivity. Qed.

Lemma replacements_none_if_empty (data : Lawsuit) :
  replacements (lawsuit_none_if_empty data) = replacements data.
Proof.
  unfold replacements, lawsuit_none_if_empty, party_none_if_empty.
  cbn [plaintiff defendant name gender ethnicity dob address id_card contact
       claims facts_and_reasons court_name date].
  rewrite !or_empty_none_if_empty. reflexivity.
Qed.

(** X4. An optional field that holds the empty string and one that is absent
    are the same to [generate_docx]: the record with every empty optional
    field made absent gives the same bytes and the same messages. *)
Theorem empty_and_absent_alike (w : World) (data : Lawsuit) (template_path : str) :
  generate_docx w (lawsuit_none_if_empty data) template_path
  = generate_docx w data template_path.
Proof.
  unfold generate_docx, generate_docx_try, fill.
  rewrite replacements_none_if_empty. reflexivity.
Qed.

(** ** What the extracted text looks like *)

Lemma strip_edges (t : str) (c d : char) (y z : str) :
  t = c :: y -> is_space c = false ->
  t = z ++ [d] -> is_space d = false ->
  strip t = t.
Proof.
  intros Hy Hc Hz Hd. unfold strip.
  assert (Hl : lstrip t = t).
  { rewrite Hy. cbn [lstrip]. rewrite Hc. reflexivity. }
  rewrite Hl. unfold rstrip. rewrite Hz at 1.
  rewrite rev_app_distr. cbn [rev app lstrip]. rewrite Hd.
  change (d :: rev z) with ([d] ++ rev z).
  rewrite rev_app_distr, rev_involutive. cbn [rev app]. symmetry. exact Hz.
Qed.

Lemma firm_strip (t : str) : firm t -> strip t = t.
Proof.
  intros [[c [y [Hy Hc]]] [z [d [Hz Hd]]]].
  exact (@strip_edges t c d y z Hy Hc Hz Hd).
Qed.

Lemma firm_join (sep : str) (parts : list str) :
  parts <> [] -> Forall firm parts -> firm (join sep parts).
Proof.
  intros Hne Hall. induction Hall as [|p ps Hp Hps IH]; [contradiction|].
  cbn [join]. destruct ps as [|q ps]; [exact Hp|].
  destruct Hp as [[c [y [Hy Hc]]] _].
  destruct (IH ltac:(discriminate)) as [_ [z [d [Hz Hd]]]].
  split.
  - exists c, (y ++ sep ++ join sep (q :: ps)). split; [|exact Hc].
    rewrite Hy. reflexivity.
  - exists (p ++ sep ++ z), d. split; [|exact Hd].
    rewrite Hz, <- !app_assoc. reflexivity.
Qed.

Lemma extract_parts_firm (d : Document) : Forall firm (extract_parts d).
Proof.
  apply Forall_forall. intros part Hin.
  assert (H : exists x, part = strip x /\ strip x <> []).
  { rewrite extract_parts_spec in Hin. apply in_app_or in Hin.
    destruct Hin as [Hin | Hin]; apply filter_In in Hin;
      destruct Hin as [Hin Hne]; apply in_map_iff in Hin;
      destruct Hin as [x [<- _]].
    - exists (para_text x). split; [reflexivity|].
      destruct (strip (para_text x)); [discriminate | discriminate].
    - exists (cell_text x). split; [reflexivity|].
      destruct (strip (cell_text x)); [discriminate | discriminate]. }
  destruct H as [x [-> Hne]]. exact (@strip_ends x Hne).
Qed.

(** X5. The text handed to the model never begins or ends with whitespace:
    trimming it again changes nothing, whatever the document. *)
Theorem extract_content_trimmed (d : Document) :
  strip (extract_content d) = extract_content d.
Proof.
  unfold extract_content.
  destruct (extract_parts d) as [|p ps] eqn:E; [reflexivity|].
  apply firm_strip. apply firm_join; [discriminate|].
  rewrite <- E. apply extract_parts_firm.
Qed.

Lemma text_only_paragraph_text (p : Paragraph) :
  para_text (text_only_paragraph p) = para_text p.
Proof.
  unfold text_only_paragraph, plain_paragraph, para_text at 1.
  cbn [runs map text concat]. apply app_nil_r.
Qed.

Lemma text_only_paragraphs (d : Document) :
  paragraphs (text_only d) = map text_only_paragraph (paragraphs d).
Proof.
  unfold paragraphs, text_only. cbn [body].
  induction (body d) as [|[p|t] bs IH]; cbn; [reflexivity | f_equal; exact IH | exact IH].
Qed.

Lemma text_only_tables (d : Document) :
  tables (text_only d) = map (map (map text_only_cell)) (tables d).
Proof.
  unfold tables, text_only. cbn [body].
  induction (body d) as [|[p|t] bs IH]; cbn; [reflexivity | exact IH | f_equal; exact IH].
Qed.

Lemma text_only_cell_text (c : Cell) : cell_text (text_only_cell c) = cell_text c.
Proof.
  unfold cell_text, text_only_cell, cell_paragraphs at 1. f_equal.
  induction (cell_paragraphs c) as [|p ps IH]; [reflexivity|].
  cbn [map flat_map block_paragraphs app].
  rewrite text_only_paragraph_text. f_equal. exact IH.
Qed.

Lemma cells_of_mapped_tables (f : Cell -> Cell) (ts : list Table) :
  concat (concat (map (map (map f)) ts)) = map f (concat (concat ts)).
Proof.
  induction ts as [|t ts IH]; [reflexivity|].
  cbn [map concat]. rewrite !concat_app, map_app, IH. f_equal.
  clear IH. induction t as [|row t IH]; [reflexivity|].
  cbn [map concat]. rewrite map_app, IH. reflexivity.
Qed.

(** X6. The text handed to the model is that of the document reduced to its
    texts: how a paragraph is cut into runs, the formatting of the runs and
    the tables inside table cells do not show in it. *)
Theorem extract_content_text_only (d : Document) :
  extract_content (text_only d) = extract_content d.
Proof.
  unfold extract_content. f_equal. rewrite !extract_parts_spec.
  rewrite text_only_paragraphs, text_only_tables, cells_of_mapped_tables.
  rewrite !map_map. f_equal; f_equal; apply map_ext; intros x.
  - rewrite text_only_paragraph_text. reflexivity.
  - rewrite text_only_cell_text. reflexivity.
Qed.

Lemma filter_all_blank {A : Type} (f : A -> str) (l : list A) :
  Forall (fun x => f x = []) l -> filter nonempty (map f l) = [].
Proof.
  induction 1 as [|x l Hx _ IH]; [reflexivity|].
  cbn [map filter]. rewrite Hx. exact IH.
Qed.

(** X7. A document in which every paragraph of the body and every cell of its
    tables is blank gives the empty text, and the extraction goes on with
    it: the model is asked with a prompt that holds no document text, and
    the outcome is what the model and the parser make of it. *)
Theorem blank_document_still_sent
        (w : World) (file_path api_key : str) (doc : Document) :
  endswith (lower file_path) (lit ".docx") = true ->
  docx_Document w file_path = Returns doc ->
  Forall (fun p => strip (para_text p) = []) (paragraphs doc) ->
  Forall (fun c => strip (cell_text c) = []) (concat (concat (tables doc))) ->
  extract_content doc = [] /\
  extract_lawsuit_data_try w file_path api_key =
    (answer <- call (model_invoke w api_key model_name
                       (format_prompt [] (get_format_instructions w))) ;;
     call (parser_parse w answer)).
Proof.
  intros Hext Hopen Hp Hc.
  assert (E : extract_content doc = []).
  { unfold extract_content. rewrite extract_parts_spec.
    rewrite (filter_all_blank (fun p => strip (para_text p)) Hp).
    rewrite (filter_all_blank (fun c => strip (cell_text c)) Hc).
    reflexivity. }
  split; [exact E|].
  unfold extract_lawsuit_data_try. rewrite Hext, Hopen. cbn [negb call bind].
  rewrite E. reflexivity.
Qed.

Lemma blank_document_still_sent_witness :
  extract_content blank_document = [] /\
  extract_lawsuit_data_try (world_with blank_document) (lit "empty.docx") (lit "key") =
    (answer <- call (model_invoke (world_with blank_document) (lit "key") model_name
                       (format_prompt [] (get_format_instructions (world_with blank_document)))) ;;
     call (parser_parse (world_with blank_document) answer)).
Proof.
  apply (@blank_document_still_sent (world_with blank_document)
           (lit "empty.docx") (lit "key") blank_document).
  - reflexivity.
  - reflexivity.
  - repeat constructor.
  - repeat constructor.
Defined.

(** X8. [extract_lawsuit_data] returns a record exactly when the name of the
    file ends in [.docx], the file opens, the model answers and the parser
    accepts the answer; the record is then the one of the parser and nothing
    is written on the page. In every other case it returns [None] and writes
    one error under the extraction-failure heading. *)
Theorem extraction_succeeds_exactly_when
        (w : World) (file_path api_key : str) (r : Lawsuit) :
  (fst (extract_lawsuit_data w file_path api_key) = Some r <->
   endswith (lower file_path) (lit ".docx") = true /\
   exists doc answer,
     docx_Document w file_path = Returns doc /\
     model_invoke w api_key model_name
       (format_prompt (extract_content doc) (get_format_instructions w))
       = Returns answer /\
     parser_parse w answer = Returns r) /\
  (fst (extract_lawsuit_data w file_path api_key) = Some r ->
   snd (extract_lawsuit_data w file_path api_key) = []) /\
  (fst (extract_lawsuit_data w file_path api_key) = None ->
   exists msg, snd (extract_lawsuit_data w file_path api_key)
               = [st_error (lit "信息提取失败: " ++ msg)]).
Proof.
  unfold extract_lawsuit_data, extract_lawsuit_data_try.
  destruct (endswith (lower file_path) (lit ".docx")); cbn [negb].
  2: { split; [|split].
       - split; [discriminate | intros [H _]; discriminate].
       - discriminate.
       - intros _. exists unsupported_msg. reflexivity. }
  destruct (docx_Document w file_path) as [doc|m] eqn:Hdoc; cbn [call bind].
  2: { split; [|split].
       - split; [discriminate | intros [_ (d & a & H & _)]; discriminate].
       - discriminate.
       - intros _. exists m. reflexivity. }
  destruct (model_invoke w api_key model_name _) as [a|m] eqn:Hmodel;
    cbn [call bind].
  2: { split; [|split].
       - split; [discriminate|].
         intros [_ (d & a & H & Hm & _)]. injection H as <-.
         rewrite Hmodel in Hm. discriminate.
       - discriminate.
       - intros _. exists m. reflexivity. }
  destruct (parser_parse w a) as [r'|m] eqn:Hparse; cbn [call fst snd].
  - split; [|split].
    + split.
      * intros H. injection H as <-. split; [reflexivity|].
        exists doc, a. split; [reflexivity | split; assumption].
      * intros [_ (d & a' & H & Hm & Hp)]. injection H as <-.
        rewrite Hmodel in Hm. injection Hm as <-.
        rewrite Hparse in Hp. injection Hp as <-. reflexivity.
    + reflexivity.
    + discriminate.
  - split; [|split].
    + split; [discriminate|].
      intros [_ (d & a' & H & Hm & Hp)]. injection H as <-.
      rewrite Hmodel in Hm. injection Hm as <-.
      rewrite Hparse in Hp. discriminate.
    + discriminate.
    + intros _. exists m. reflexivity.
Qed.

Lemma extraction_succeeds_exactly_when_witness :
  snd (extract_lawsuit_data (world_accepting letter lawsuit_plain)
                            (lit "brief.docx") (lit "key")) = [].
Proof.
  apply (proj1 (proj2 (@extraction_succeeds_exactly_when
                         (world_accepting letter lawsuit_plain)
                         (lit "brief.docx") (lit "key") lawsuit_plain))).
  reflexivity.
Defined.

(** ** The page *)


Lemma write_file_same (fs : files) (path : str) (content : raw) :
  write_file fs path content path = Some content.
Proof. unfold write_file. rewrite str_eqb_refl. reflexivity. Qed.


Lemma page_run_parts (h : Host) (inp : Inputs) (st : PageState) :
  page_run h inp st =
    (page_cleanup (fst (page_extract h inp st)),
     snd (page_extract h inp st) ++
     page_generate h inp (fst (page_extract h inp st))).
Proof. unfold page_run. destruct (page_extract h inp st). reflexivity. Qed.

Lemma page_cleanup_keeps (st : PageState) :
  extracted_data (page_cleanup st) = extracted_data st /\
  cached (page_cleanup st) = cached st.
Proof.
  unfold page_cleanup. destruct (path_exists (disk st) page_temp_path);
    split; reflexivity.
Qed.





Lemma temp_path_is_docx : endswith (lower page_temp_path) (lit ".docx") = true.
Proof. reflexivity. Qed.

Lemma extract_from_temp_file (h : Host) (fs : files) (content : raw)
      (api_key msg : str) :
  parse_docx h content = Fails msg ->
  extract_lawsuit_data (world_of h (write_file fs page_temp_path content))
                       page_temp_path api_key
  = (None, [st_error (lit "信息提取失败: " ++ msg)]).
Proof.
  intros H. unfold extract_lawsuit_data, extract_lawsuit_data_try.
  rewrite temp_path_is_docx. cbn [negb].
  unfold world_of at 1. cbn [docx_Document].
  rewrite write_file_same, H. reflexivity.
Qed.

(** X10. From the page, a file that python-docx cannot open, whatever its
    name was, is never turned down as unsupported: with a key, the button
    pressed and nothing cached, the run shows the extraction failure with
    the message of the library followed by the general error, and the record
    extracted before, if any, is lost. *)
Theorem upload_that_does_not_open
        (h : Host) (inp : Inputs) (st : PageState) (content : raw) (msg : str) :
  uploaded_file inp = Some content ->
  nonempty (page_api_key inp) = true ->
  start_clicked inp = true ->
  cache_find (cached st) page_temp_path (page_api_key inp) = None ->
  parse_docx h content = Fails msg ->
  extracted_data (fst (page_run h inp st)) = None /\
  snd (page_run h inp st)
    = [show_error (lit "信息提取失败: " ++ msg);
       show_error (lit "无法从文档中提取信息，请检查文件内容或API Key。")].
Proof.
  intros Hup Hkey Hclick Hmiss Hparse.
  rewrite page_run_parts. cbn [fst snd].
  rewrite (proj1 (page_cleanup_keeps _)).
  unfold page_extract. rewrite Hup, Hkey, Hclick.
  unfold extract_lawsuit_data_cached. rewrite Hmiss.
  rewrite (@extract_from_temp_file h (disk st) content (page_api_key inp) msg Hparse).
  cbn [fst snd extracted_data map of_st_call app].
  split; [reflexivity|].
  unfold page_generate. cbn [extracted_data]. reflexivity.
Qed.

Lemma upload_that_does_not_open_witness :
  extracted_data
    (fst (page_run (host_with letter lawsuit_plain)
                   (extraction_request [208%N; 207%N])
                   {| extracted_data := Some lawsuit_plain; cached := [];
                      disk := no_files |})) = None /\
  snd (page_run (host_with letter lawsuit_plain)
                (extraction_request [208%N; 207%N])
                {| extracted_data := Some lawsuit_plain; cached := [];
                   disk := no_files |})
    = [show_error (lit "信息提取失败: " ++ lit "File is not a zip file");
       show_error (lit "无法从文档中提取信息，请检查文件内容或API Key。")].
Proof.
  apply (@upload_that_does_not_open
           (host_with letter lawsuit_plain)
           (extraction_request [208%N; 207%N])
           {| extracted_data := Some lawsuit_plain; cached := [];
              disk := no_files |}
           [208%N; 207%N] (lit "File is not a zip file"));
    reflexivity.
Defined.

Lemma cached_call_stored (w : World) (c : cache) (file_path api_key : str) :
  cache_find (snd (extract_lawsuit_data_cached w c file_path api_key))
             file_path api_key
  = Some (fst (extract_lawsuit_data_cached w c file_path api_key)).
Proof.
  unfold extract_lawsuit_data_cached.
  destruct (cache_find c file_path api_key) as [r|] eqn:E; cbn [fst snd].
  - exact E.
  - cbn [cache_find]. rewrite !str_eqb_refl. reflexivity.
Qed.

Lemma cached_call_hit (w : World) (c : cache) (file_path api_key : str)
      (r : option Lawsuit * list st_call) :
  cache_find c file_path api_key = Some r ->
  extract_lawsuit_data_cached w c file_path api_key = (r, c).
Proof. intros H. unfold extract_lawsuit_data_cached. rewrite H. reflexivity. Qed.

Lemma page_extract_requested (h : Host) (inp : Inputs) (st : PageState)
      (content : raw) :
  uploaded_file inp = Some content ->
  nonempty (page_api_key inp) = true ->
  start_clicked inp = true ->
  fst (page_extract h inp st) =
    {| extracted_data :=
         fst (fst (extract_lawsuit_data_cached
                     (world_of h (write_file (disk st) page_temp_path content))
                     (cached st) page_temp_path (page_api_key inp)));
       cached :=
         snd (extract_lawsuit_data_cached
                (world_of h (write_file (disk st) page_temp_path content))
                (cached st) page_temp_path (page_api_key inp));
       disk := write_file (disk st) page_temp_path content |}.
Proof.
  intros Hup Hkey Hclick. unfold page_extract. rewrite Hup, Hkey, Hclick.
  destruct (extract_lawsuit_data_cached _ _ _ _) as [r c]. reflexivity.
Qed.

(** X11. The extraction is kept under the path and the key, and the page
    always gives the same path: once the button was pressed for one upload,
    pressing it again with the same key gives the record of the first
    upload, whatever file is uploaded now and whatever the document reader,
    the model and the parser would make of it. *)
Theorem second_upload_gets_first_record
        (h h' : Host) (inp inp' : Inputs) (st : PageState) (a b : raw) :
  uploaded_file inp = Some a ->
  uploaded_file inp' = Some b ->
  nonempty (page_api_key inp) = true ->
  page_api_key inp' = page_api_key inp ->
  start_clicked inp = true ->
  start_clicked inp' = true ->
  extracted_data (fst (page_run h' inp' (fst (page_run h inp st))))
  = extracted_data (fst (page_run h inp st)).
Proof.
  intros Ha Hb Hkey Hsame Hclick Hclick'.
  assert (Hkey' : nonempty (page_api_key inp') = true) by (rewrite Hsame; exact Hkey).
  rewrite (page_run_parts h' inp'). cbn [fst].
  rewrite (proj1 (page_cleanup_keeps _)).
  rewrite (page_extract_requested h' inp' _ Hb Hkey' Hclick'). cbn [extracted_data].
  rewrite (page_run_parts h inp st). cbn [fst].
  destruct (page_cleanup_keeps (fst (page_extract h inp st))) as [Hdata Hcache].
  rewrite Hdata, Hcache, Hsame.
  rewrite (page_extract_requested h inp st Ha Hkey Hclick). cbn [extracted_data cached].
  erewrite cached_call_hit by apply cached_call_stored. reflexivity.
Qed.

Lemma second_upload_gets_first_record_witness :
  extracted_data
    (fst (page_run (host_with nested_template empty_lawsuit)
                   (extraction_request [208%N])
                   (fst (page_run (host_with letter lawsuit_plain)
                                  (extraction_request [80%N]) fresh_page))))
  = extracted_data
      (fst (page_run (host_with letter lawsuit_plain)
                     (extraction_request [80%N]) fresh_page)).
Proof.
  apply (@second_upload_gets_first_record
           (host_with letter lawsuit_plain)
           (host_with nested_template empty_lawsuit)
           (extraction_request [80%N]) (extraction_request [208%N])
           fresh_page [80%N] [208%N]);
    reflexivity.
Defined.

(** X12. Without an upload, or without a key in the environment or typed, a
    run of the script extracts nothing, pressed button or not: the record
    and the cache stay as they were and only the form and what follows it
    are shown. A key of the environment that is empty counts as none. *)
Theorem no_extraction_without_key_or_upload
        (h : Host) (inp : Inputs) (st : PageState) :
  uploaded_file inp = None \/ nonempty (page_api_key inp) = false ->
  extracted_data (fst (page_run h inp st)) = extracted_data st /\
  cached (fst (page_run h inp st)) = cached st /\
  snd (page_run h inp st) = page_generate h inp st.
Proof.
  intros H. rewrite page_run_parts. cbn [fst snd].
  destruct (page_cleanup_keeps (fst (page_extract h inp st))) as [Hdata Hcache].
  rewrite Hdata, Hcache.
  assert (E : page_extract h inp st = (st, [])).
  { unfold page_extract. destruct H as [-> | H]; [reflexivity|].
    destruct (uploaded_file inp); [rewrite H|]; reflexivity. }
  rewrite E. cbn [fst snd app]. repeat split; reflexivity.
Qed.

Lemma no_extraction_without_key_or_upload_witness :
  extracted_data
    (fst (page_run (host_with letter lawsuit_plain)
                   {| env_api_key := Some []; typed_api_key := [];
                      uploaded_file := Some [80%N]; start_clicked := true;
                      submitted := None |} fresh_page))
  = extracted_data fresh_page.
Proof.
  apply (proj1 (@no_extraction_without_key_or_upload
                  (host_with letter lawsuit_plain)
                  {| env_api_key := Some []; typed_api_key := [];
                     uploaded_file := Some [80%N]; start_clicked := true;
                     submitted := None |} fresh_page
                  ltac:(right; reflexivity))).
Defined.




